(** * Cluster seeds and seed mutation

    A shallow embedding of [sage/combinat/cluster_algebra_quiver/cluster_seed.py]
    (class [ClusterSeed]): the exchange matrix, the cluster of rational
    functions, seed mutation, the derived quantities (F-polynomials,
    g-vectors, c-vectors) and the principal extension.

    Python objects that are mutated in place are modelled by explicit state
    passing: a method takes the receiver's state and returns the receiver's
    state after the call together with the returned value or the exception
    that was raised. *)

From Stdlib Require Import ZArith String DecimalString QArith Qcanon Sorted Permutation.
From stdpp Require Import base list.

Local Open Scope nat_scope.

(** ** Python values, exceptions and results *)

(** The values a caller can pass for the [sequence] argument of [mutate]. *)
#[warnings="-register-all"]
Inductive pyval :=
| PInt (z : Z)
| PList (l : list pyval)
| PTuple (l : list pyval)
| PNone
| PStr (s : string).

(** The [inplace] argument of [mutate]: a genuine [bool], or an object of
    another type of which only the truth value matters. *)
Inductive pyflag :=
| FBool (b : bool)
| FOther (truthy : bool).

Definition truth (f : pyflag) : bool :=
  match f with FBool b => b | FOther b => b end.

Definition type_is_bool (f : pyflag) : bool :=
  match f with FBool _ => true | FOther _ => false end.

(** The messages of the [ValueError]s raised in [cluster_seed.py]. *)
Inductive message :=
| msg_vertex_or_sequence
    (* 'The quiver can only be mutated at a vertex or at a sequence of vertices' *)
| msg_second_parameter
    (* 'The second parameter must be boolean.  To mutate at a sequence of length 2, input it as a list.' *)
| msg_cannot_be_mutated_at (v : pyval)
    (* 'The quiver cannot be mutated at the vertex ' + str( v ) *)
| msg_no_principal_coefficients
    (* 'No principal coefficients initialized. Use principal_extension, or ignore_coefficients to ignore this.' *)
| msg_f_polynomial_n_m
    (* 'The F-polynomial is only defined if the number of frozen variables and the number of exchangeable variables coincide' *)
| msg_g_vector_n_m
    (* 'The g-vector is only defined if the number of frozen variables and the number of exchangeable variables coincide' *)
| msg_no_cluster_variable (k : Z)
    (* 'The cluster seed does not have a cluster variable of index %s.' *)
| msg_no_c_vector (k : Z)
    (* 'The cluster seed does not have a c-vector of index %s.' *)
| msg_not_square
    (* 'The b-matrix is not square. Use ignore_coefficients to ignore this.' *)
| msg_not_cluster_index
    (* 'The input is not in an index of a cluster variable.' *)
| msg_not_frozen_index
    (* 'The input is not in an index of a frozen variable.' *)
| msg_wrong_number
    (* 'The number of given cluster variables is wrong' *)
| msg_not_contained
    (* 'The cluster variables are not all contained in %s' *)
| msg_return_output.
    (* 'The parameter `return_output` can only be `seed`, `matrix`, or `var`.' *)

Inductive exception :=
| ValueError (msg : message)
| ZeroDivisionError
| TypeError.

(** The error kinds of the specification, told apart by the message. *)
Inductive error_kind :=
| InvalidInput | InvalidVertex | InvalidArgument | IndexOutOfRange
| PreconditionUnmet | LengthMismatch | NotInField.

Definition kind_of (msg : message) : error_kind :=
  match msg with
  | msg_vertex_or_sequence => InvalidArgument
  | msg_second_parameter => InvalidArgument
  | msg_cannot_be_mutated_at _ => InvalidVertex
  | msg_no_principal_coefficients => PreconditionUnmet
  | msg_f_polynomial_n_m => PreconditionUnmet
  | msg_g_vector_n_m => PreconditionUnmet
  | msg_no_cluster_variable _ => IndexOutOfRange
  | msg_no_c_vector _ => IndexOutOfRange
  | msg_not_square => PreconditionUnmet
  | msg_not_cluster_index => IndexOutOfRange
  | msg_not_frozen_index => IndexOutOfRange
  | msg_wrong_number => LengthMismatch
  | msg_not_contained => NotInField
  | msg_return_output => InvalidArgument
  end.

Inductive result (A : Type) :=
| Return (a : A)
| Raise (e : exception).
Arguments Return {A} a.
Arguments Raise {A} e.

(** [fails_with r kd]: the call raised a [ValueError] of kind [kd]. *)
Definition fails_with {A} (r : result A) (kd : error_kind) : Prop :=
  exists msg, r = Raise (ValueError msg) /\ kind_of msg = kd.

(** ** The field of rational functions

    [FractionField(PolynomialRing(QQ, ...))] is a capability the seed
    consumes: exact addition, multiplication, inversion and comparison. *)
Record FieldOps := {
  carrier :> Type;
  fzero : carrier;
  fone : carrier;
  fadd : carrier -> carrier -> carrier;
  fmul : carrier -> carrier -> carrier;
  finv : carrier -> carrier;                 (* meaningful on non-zero elements *)
  feqb : carrier -> carrier -> bool;         (* Sage's [==] on field elements *)
}.

(** The part of the field interface used by the derived quantities and by
    the constructors: generators, membership, substitution, degrees. *)
Record FractionField := {
  ops :> FieldOps;
  (* [R.gens()] for the field with generators x0..x(n-1), y0..y(m-1) *)
  gens : nat -> nat -> list ops;
  (* [c in R] for that field *)
  contains : nat -> nat -> ops -> bool;
  (* [f.subs(eval_dict)]: generator index |-> integer value; [None] when the
     denominator vanishes (ZeroDivisionError) *)
  subs : list (nat * Z) -> ops -> option ops;
  (* [f.numerator().degrees()] and [f.denominator().degrees()] on the
     generators 0..N-1 *)
  numerator_degrees : nat -> ops -> list Z;
  denominator_degrees : nat -> ops -> list Z;
}.

(** ** Exchange matrices *)

Abbreviation matrix := (list (list Z)).

(** [M[i,j]]; the class invariant keeps every access of the seed in range. *)
Definition entry (M : matrix) (i j : nat) : Z :=
  match M !! i with
  | Some row => match row !! j with Some a => a | None => 0%Z end
  | None => 0%Z
  end.

Definition nrows (M : matrix) : nat := length M.
Definition ncols (M : matrix) : nat :=
  match M with [] => 0 | row :: _ => length row end.

(** Modelled from the spec: the in-place [mutate(k)] of the matrix type
    (sage/matrix is not under src/). Row and column [k] change sign; for
    i, j different from k,
    M'[i,j] = M[i,j] + sign(M[i,k]) * max(0, M[i,k] * M[k,j]). *)
Definition mutated_entry (M : matrix) (k i j : nat) (a : Z) : Z :=
  if bool_decide (i = k \/ j = k) then (- a)%Z
  else (a + Z.sgn (entry M i k) * Z.max 0 (entry M i k * entry M k j))%Z.

(** Modelled from the spec: [M.mutate(k)] applies the rule above to every
    entry. *)
Definition matrix_mutate (M : matrix) (k : nat) : matrix :=
  imap (fun i row => imap (mutated_entry M k i) row) M.

(** Modelled from the spec: [identity_matrix(n)] of sage/matrix; row [i]
    has its one in column [i]. *)
Definition identity_matrix (n : nat) : matrix :=
  map (fun i => map (fun j => if decide (i = j) then 1%Z else 0%Z) (seq 0 n)) (seq 0 n).

(** Modelled from the spec: [M.stack(N)] of sage/matrix puts the rows of
    [N] below those of [M]. *)
Definition stack (M N : matrix) : matrix := M ++ N.

(** The invariant of an exchange matrix: its top n x n block is
    antisymmetric up to a positive diagonal rescaling. *)
Definition skew_symmetrizable (n : nat) (M : matrix) : Prop :=
  exists d : nat -> Z,
    (forall i, i < n -> (0 < d i)%Z) /\
    (forall i j, i < n -> j < n -> (d i * entry M i j = - (d j * entry M j i))%Z).

(** ** Quivers

    Modelled from the spec: the [ClusterQuiver] class (quiver.py is not under
    src/). Only what a seed reads from it is kept: the matrix, the numbers of
    exchangeable and frozen vertices and the mutation type. *)
Record ClusterQuiver := {
  q_M : matrix;
  q_n : nat;
  q_m : nat;
  q_mutation_type : option string;
}.

(** Modelled from the spec: [ClusterQuiver(M)] for a matrix [M]: n is the
    number of columns, m the number of remaining rows, the mutation type is
    unknown. *)
Definition ClusterQuiver_of_matrix (M : matrix) : ClusterQuiver :=
  {| q_M := M; q_n := ncols M; q_m := nrows M - ncols M; q_mutation_type := None |}.

(** ** Seeds *)

Section Seed.

Context {K : FieldOps}.

Record ClusterSeed := {
  _M : matrix;
  _cluster : list K;
  _n : nat;
  _m : nat;
  _R : nat * nat;          (* the field: numbers of x and of y generators *)
  _quiver : option ClusterQuiver;
  _mutation_type : option string;
  _description : string;
  _is_principal : option bool;
}.

Definition with_M (s : ClusterSeed) (M : matrix) : ClusterSeed :=
  {| _M := M; _cluster := _cluster s; _n := _n s; _m := _m s; _R := _R s;
     _quiver := _quiver s; _mutation_type := _mutation_type s;
     _description := _description s; _is_principal := _is_principal s |}.

Definition with_cluster (s : ClusterSeed) (c : list K) : ClusterSeed :=
  {| _M := _M s; _cluster := c; _n := _n s; _m := _m s; _R := _R s;
     _quiver := _quiver s; _mutation_type := _mutation_type s;
     _description := _description s; _is_principal := _is_principal s |}.

Definition with_quiver (s : ClusterSeed) (q : option ClusterQuiver) : ClusterSeed :=
  {| _M := _M s; _cluster := _cluster s; _n := _n s; _m := _m s; _R := _R s;
     _quiver := q; _mutation_type := _mutation_type s;
     _description := _description s; _is_principal := _is_principal s |}.

Definition with_mutation_type (s : ClusterSeed) (t : option string) : ClusterSeed :=
  {| _M := _M s; _cluster := _cluster s; _n := _n s; _m := _m s; _R := _R s;
     _quiver := _quiver s; _mutation_type := t;
     _description := _description s; _is_principal := _is_principal s |}.

Definition with_is_principal (s : ClusterSeed) (p : option bool) : ClusterSeed :=
  {| _M := _M s; _cluster := _cluster s; _n := _n s; _m := _m s; _R := _R s;
     _quiver := _quiver s; _mutation_type := _mutation_type s;
     _description := _description s; _is_principal := p |}.

(** The truth value of [self._is_principal] ([None] and [False] are false). *)
Definition is_principal_set (s : ClusterSeed) : bool :=
  match _is_principal s with Some true => true | _ => false end.

(** [__init__], branch [type(data) is ClusterSeed]: every field is copied
    except the flag, which is the constructor's own argument. *)
Definition init_from_seed (data : ClusterSeed) (is_principal : option bool) : ClusterSeed :=
  {| _M := _M data; _cluster := _cluster data; _n := _n data; _m := _m data;
     _R := _R data; _quiver := _quiver data;
     _mutation_type := _mutation_type data;
     _description := _description data;
     _is_principal := is_principal |}.

(** [__eq__]: equal matrices and equal clusters. *)
Fixpoint cluster_eqb (c d : list K) : bool :=
  match c, d with
  | [], [] => true
  | a :: c', b :: d' => feqb K a b && cluster_eqb c' d'
  | _, _ => false
  end.

Definition matrix_eqb (M N : matrix) : bool :=
  bool_decide (M = N).

Definition seed_eq (self other : ClusterSeed) : bool :=
  matrix_eqb (_M self) (_M other) && cluster_eqb (_cluster self) (_cluster other).

(** *** Mutation *)

(** [k in range(n)] for a Python value [k] *)
Definition in_range (n : nat) (v : pyval) : bool :=
  match v with
  | PInt z => (0 <=? z)%Z && (z <? Z.of_nat n)%Z
  | _ => false
  end.

Definition index_of (v : pyval) : nat :=
  match v with PInt z => Z.to_nat z | _ => 0 end.

(** [x**e] for a positive integer [e] *)
Definition fpow (x : K) (e : Z) : K :=
  Z.iter e (fun acc => fmul K acc x) (fone K).

(** [x**(-1)] *)
Definition fpow_minus_one (x : K) : result K :=
  if feqb K x (fzero K) then Raise ZeroDivisionError else Return (finv K x).

Definition cluster_at (cluster : list K) (j : nat) : K :=
  default (fone K) (cluster !! j).

(** The inner loop [for j in range(n+m)]: the two monomials of the exchange
    relation at [k]. *)
Definition monomial_step (M : matrix) (cluster : list K) (k : nat)
    (acc : K * K) (j : nat) : K * K :=
  let '(mon_p, mon_n) := acc in
  if (0 <? entry M j k)%Z then
    (fmul K mon_p (fpow (cluster_at cluster j) (entry M j k)), mon_n)
  else if (entry M j k <? 0)%Z then
    (mon_p, fmul K mon_n (fpow (cluster_at cluster j) (- entry M j k)))
  else (mon_p, mon_n).

Definition exchange_monomials (M : matrix) (cluster : list K) (k nm : nat) : K * K :=
  foldl (monomial_step M cluster k) (fone K, fone K) (seq 0 nm).

(** One pass of the loop [for k in seq]. The exception of [cluster[k]**(-1)]
    is raised before either assignment, so a pass that raises changes
    nothing. *)
Definition mutate_step (seed : ClusterSeed) (k : nat) : result ClusterSeed :=
  let M := _M seed in
  let cluster := _cluster seed in
  let '(mon_p, mon_n) := exchange_monomials M cluster k (_n seed + _m seed) in
  match fpow_minus_one (cluster_at cluster k) with
  | Raise e => Raise e
  | Return x_inv =>
      Return (with_M
                (with_cluster seed (<[k := fmul K (fadd K mon_p mon_n) x_inv]> cluster))
                (matrix_mutate M k))
  end.

(** The loop [for k in seq]: the state reached, and the exception that
    stopped it if any. *)
Fixpoint mutate_loop (seed : ClusterSeed) (seq : list nat) : ClusterSeed * option exception :=
  match seq with
  | [] => (seed, None)
  | k :: rest =>
      match mutate_step seed k with
      | Raise e => (seed, Some e)
      | Return seed' => mutate_loop seed' rest
      end
  end.

(** The part of [mutate] that runs once [seq] is a list: the check of
    [inplace], the check of the vertices, the loop, and the return. [self]
    is the receiver and [seed] the object that is mutated ([self] itself or
    its copy). *)
Definition mutate_list (self seed : ClusterSeed) (inplace : pyflag) (seq : list pyval)
    : ClusterSeed * result (option ClusterSeed) :=
  if negb (type_is_bool inplace) then (self, Raise (ValueError msg_second_parameter))
  else
    match List.filter (fun v => negb (in_range (_n seed) v)) seq with
    | v :: _ => (self, Raise (ValueError (msg_cannot_be_mutated_at v)))
    | [] =>
        match mutate_loop seed (map index_of seq) with
        | (seed', Some e) => (if truth inplace then seed' else self, Raise e)
        | (seed', None) =>
            let seed'' := with_quiver seed' None in
            if truth inplace then (seed'', Return None)
            else (self, Return (Some seed''))
        end
    end.

(** [mutate(self, sequence, inplace)]: the state of [self] after the call,
    and what the call returned or raised. *)
Definition mutate (self : ClusterSeed) (sequence : pyval) (inplace : pyflag)
    : ClusterSeed * result (option ClusterSeed) :=
  let seed := if truth inplace then self else init_from_seed self None in
  let n := _n seed in
  let seq := if in_range n sequence then PList [sequence] else sequence in
  let seq := match seq with PTuple l => PList l | _ => seq end in
  match seq with
  | PList l => mutate_list self seed inplace l
  | _ => (self, Raise (ValueError msg_vertex_or_sequence))
  end.

(** Two calls in a row on the same object: the second runs on the state
    left by the first, unless the first raised. *)
Definition then_mutate (r : ClusterSeed * result (option ClusterSeed)) (sequence : pyval)
    : ClusterSeed * result (option ClusterSeed) :=
  match r with
  | (s, Return _) => mutate s sequence (FBool true)
  | (s, Raise e) => (s, Raise e)
  end.


(** *** The class invariant *)

Definition well_shaped (s : ClusterSeed) : Prop :=
  length (_M s) = _n s + _m s /\
  Forall (fun row => length row = _n s) (_M s) /\
  length (_cluster s) = _n s + _m s.

Definition wf_seed (s : ClusterSeed) : Prop :=
  well_shaped s /\ skew_symmetrizable (_n s) (_M s).

(** [x == y] holds in the field. *)
Definition feq (a b : K) : Prop := feqb K a b = true.

(** *** Statements about [mutate] *)

(** Mutating twice at [k] completes and gives back a seed equal to [s]:
    the same matrix and a cluster that is [==] entry by entry, which is what
    [__eq__] tests. *)
Definition involution_at (s : ClusterSeed) (k : nat) : Prop :=
  exists s2,
    then_mutate (mutate s (PInt (Z.of_nat k)) (FBool true)) (PInt (Z.of_nat k))
      = (s2, Return None) /\
    _M s2 = _M s /\ Forall2 feq (_cluster s2) (_cluster s) /\
    seed_eq s2 s = true.



(** The arguments [mutate] rejects, with the kind of the error: a list or
    tuple with an element outside [0,n), and anything that is neither a valid
    vertex nor a list or tuple. *)
Inductive rejected (n : nat) : pyval -> error_kind -> Prop :=
| rejected_list l v :
    In v l -> in_range n v = false -> rejected n (PList l) InvalidVertex
| rejected_tuple l v :
    In v l -> in_range n v = false -> rejected n (PTuple l) InvalidVertex
| rejected_int z :
    in_range n (PInt z) = false -> rejected n (PInt z) InvalidArgument
| rejected_none : rejected n PNone InvalidArgument
| rejected_str str : rejected n (PStr str) InvalidArgument.

(** The exchange binomial [mon_p + mon_n] at [k], the new variable
    [(mon_p+mon_n)*cluster[k]**(-1)] and the seed after a pass that does not
    raise. *)
Definition exchange_binomial (s : ClusterSeed) (k : nat) : K :=
  let '(mon_p, mon_n) := exchange_monomials (_M s) (_cluster s) k (_n s + _m s) in
  fadd K mon_p mon_n.

Definition exchanged_variable (s : ClusterSeed) (k : nat) : K :=
  fmul K (exchange_binomial s k) (finv K (cluster_at (_cluster s) k)).

Definition mutated (s : ClusterSeed) (k : nat) : ClusterSeed :=
  with_M (with_cluster s (<[k := exchanged_variable s k]> (_cluster s)))
         (matrix_mutate (_M s) k).

End Seed.

Arguments ClusterSeed K : clear implicits.

(** ** Construction, derived quantities and transformations *)

Section Derived.

Context {R : FractionField}.

(** A [ClusterVariable]: a field element tagged with its variable type. *)
Inductive variable_type := cluster_variable_tag | frozen_variable_tag.

Record ClusterVariable := {
  cv_value : R;
  _variable_type : option variable_type;
}.

(** ['A seed for a cluster algebra of rank %d' %(self._n)] *)
Definition rank_description (n : nat) : string :=
  ("A seed for a cluster algebra of rank " ++ NilEmpty.string_of_uint (Nat.to_uint n))%string.

(** [__init__], branch [type(data) is ClusterQuiver]. *)
Definition init_from_quiver (data : ClusterQuiver) (is_principal : option bool)
    : ClusterSeed R :=
  {| _M := q_M data;
     _n := q_n data;
     _m := q_m data;
     _quiver := Some data;
     _mutation_type := q_mutation_type data;
     _description := rank_description (q_n data);
     _R := (q_n data, q_m data);
     _cluster := gens R (q_n data) (q_m data);
     _is_principal := is_principal |}.

(** [__init__], last branch, for a matrix: the quiver is built first and the
    constructor runs again on it; the flag is stored last. *)
Definition init_from_matrix (data : matrix) (is_principal : option bool)
    : ClusterSeed R :=
  with_is_principal (init_from_quiver (ClusterQuiver_of_matrix data) None) is_principal.

(** The argument shapes of the constructor. *)
Inductive seed_data :=
| DataSeed (s : ClusterSeed R)
| DataQuiver (q : ClusterQuiver)
| DataMatrix (M : matrix).

Definition init (data : seed_data) (is_principal : option bool) : ClusterSeed R :=
  match data with
  | DataSeed s => init_from_seed s is_principal
  | DataQuiver q => init_from_quiver q is_principal
  | DataMatrix M => init_from_matrix M is_principal
  end.

(** [x(k)] and [y(k)]: the initial generators. *)
Definition x (self : ClusterSeed R) (k : Z) : result ClusterVariable :=
  if in_range (_n self) (PInt k) then
    Return {| cv_value := default (fone R) (gens R (fst (_R self)) (snd (_R self)) !! Z.to_nat k);
              _variable_type := Some cluster_variable_tag |}
  else Raise (ValueError msg_not_cluster_index).

Definition y (self : ClusterSeed R) (k : Z) : result ClusterVariable :=
  if in_range (_m self) (PInt k) then
    Return {| cv_value := default (fone R)
                (gens R (fst (_R self)) (snd (_R self)) !! (_n self + Z.to_nat k));
              _variable_type := Some frozen_variable_tag |}
  else Raise (ValueError msg_not_frozen_index).

Definition cluster_variable (self : ClusterSeed R) (k : Z) : result ClusterVariable :=
  if negb (in_range (_n self) (PInt k)) then Raise (ValueError (msg_no_cluster_variable k))
  else Return {| cv_value := cluster_at (_cluster self) (Z.to_nat k);
                 _variable_type := Some cluster_variable_tag |}.

(** [f.subs(eval_dict)] *)
Definition cv_subs (eval_dict : list (nat * Z)) (f : ClusterVariable) : result R :=
  match subs R eval_dict (cv_value f) with
  | Some v => Return v
  | None => Raise ZeroDivisionError
  end.

(** [f_polynomial(k, ignore_coefficients)]; the keys [x(i)] of the
    dictionary are the generators 0..n-1. *)
Definition f_polynomial (self : ClusterSeed R) (k : Z) (ignore_coefficients : bool)
    : result R :=
  if negb (ignore_coefficients || is_principal_set self) then
    Raise (ValueError msg_no_principal_coefficients)
  else if negb (_m self =? _n self) then Raise (ValueError msg_f_polynomial_n_m)
  else if negb (in_range (_n self) (PInt k)) then
    Raise (ValueError (msg_no_cluster_variable k))
  else
    let eval_dict := map (fun i => (i, 1%Z)) (seq 0 (_n self)) in
    match cluster_variable self k with
    | Raise e => Raise e
    | Return f => cv_subs eval_dict f
    end.

(** [g_vector(k, ignore_coefficients)]; the keys [y(i)] are the generators
    n..n+m-1. *)
Definition g_vector (self : ClusterSeed R) (k : Z) (ignore_coefficients : bool)
    : result (list Z) :=
  if negb (ignore_coefficients || is_principal_set self) then
    Raise (ValueError msg_no_principal_coefficients)
  else if negb (_m self =? _n self) then Raise (ValueError msg_g_vector_n_m)
  else if negb (in_range (_n self) (PInt k)) then
    Raise (ValueError (msg_no_cluster_variable k))
  else
    match cluster_variable self k with
    | Raise e => Raise e
    | Return f =>
        let eval_dict := map (fun i => (_n self + i, 0%Z)) (seq 0 (_m self)) in
        match cv_subs eval_dict f with
        | Raise e => Raise e
        | Return f0 =>
            let d1 := numerator_degrees R (_n self + _m self) f0 in
            let d2 := denominator_degrees R (_n self + _m self) f0 in
            Return (map (fun i => (default 0 (d1 !! i) - default 0 (d2 !! i))%Z)
                        (seq 0 (_n self)))
        end
    end.

(** [c_vector(k, ignore_coefficients)]: the index is checked first. *)
Definition c_vector (self : ClusterSeed R) (k : Z) (ignore_coefficients : bool)
    : result (list Z) :=
  if negb (in_range (_n self) (PInt k)) then Raise (ValueError (msg_no_c_vector k))
  else if negb (ignore_coefficients || is_principal_set self) then
    Raise (ValueError msg_no_principal_coefficients)
  else
    Return (map (fun i => entry (_M self) i (Z.to_nat k)) (seq (_n self) (_m self))).

(** [principal_extension(ignore_coefficients)] *)
Definition principal_extension (self : ClusterSeed R) (ignore_coefficients : bool)
    : result (ClusterSeed R) :=
  if negb ignore_coefficients && negb (_m self =? 0) then
    Raise (ValueError msg_not_square)
  else
    let M := stack (_M self) (identity_matrix (_n self)) in
    let is_principal := (_m self =? 0) in
    let seed := init (DataMatrix M) (Some is_principal) in
    Return (with_mutation_type seed (_mutation_type self)).

(** [set_cluster(cluster)]: the state of [self] afterwards and the outcome. *)
Definition set_cluster (self : ClusterSeed R) (cluster : list R)
    : ClusterSeed R * result unit :=
  if negb (length cluster =? _n self + _m self) then
    (self, Raise (ValueError msg_wrong_number))
  else if existsb (fun c => negb (contains R (fst (_R self)) (snd (_R self)) c)) cluster then
    (self, Raise (ValueError msg_not_contained))
  else (with_is_principal (with_cluster self cluster) None, Return tt).

(** [mutation_sequence(sequence, return_output)], without the plot. *)
Inductive return_output := output_seed | output_matrix | output_var | output_other.

Inductive sequence_output :=
| Seeds (l : list (ClusterSeed R))
| Matrices (l : list matrix)
| Vars (l : list R).

(** The loop [for v in sequence]: the lists [seed_sequence] and
    [new_clust_var]. *)
Fixpoint mutation_sequence_loop (seed : ClusterSeed R) (sequence : list pyval)
    : result (list (ClusterSeed R) * list R) :=
  match sequence with
  | [] => Return ([], [])
  | v :: rest =>
      match mutate seed v (FBool false) with
      | (_, Raise e) => Raise e
      | (_, Return None) => Raise TypeError   (* [None._cluster]; not reached *)
      | (_, Return (Some seed')) =>
          match v with
          | PInt _ =>
              match mutation_sequence_loop seed' rest with
              | Raise e => Raise e
              | Return (seeds, vars) =>
                  Return (seed' :: seeds, cluster_at (_cluster seed') (index_of v) :: vars)
              end
          | _ => Raise TypeError       (* [seed._cluster[v]] for a list [v] *)
          end
      end
  end.

Definition mutation_sequence (self : ClusterSeed R) (sequence : list pyval)
    (mode : return_output) : result sequence_output :=
  let seed := init (DataSeed self) None in
  match mutation_sequence_loop seed sequence with
  | Raise e => Raise e
  | Return (seed_sequence, new_clust_var) =>
      match mode with
      | output_seed => Return (Seeds seed_sequence)
      | output_matrix => Return (Matrices (map _M seed_sequence))
      | output_var => Return (Vars new_clust_var)
      | output_other => Raise (ValueError msg_return_output)
      end
  end.

End Derived.

Arguments ClusterVariable R : clear implicits.

(** The seeds that [cluster_seed.py] obtains from [S] by copy construction:
    [ClusterSeed(S)], the clone returned by [mutate] with [inplace=False],
    and the seeds returned by [mutation_sequence]. *)
Definition copy_of {R : FractionField} (S T : ClusterSeed R) : Prop :=
  T = init (DataSeed S) None \/
  (exists sequence S', mutate S sequence (FBool false) = (S', Return (Some T))) \/
  (exists sequence l, mutation_sequence S sequence output_seed = Return (Seeds l) /\ In T l).

(** ** The other methods of [ClusterSeed] *)

(** Modelled from the spec: [M[i,j] = v] of sage/matrix, an assignment
    inside the matrix (the class invariant keeps the position in range). *)
Definition matrix_set (M : matrix) (i j : nat) (v : Z) : matrix :=
  alter (fun row => <[j := v]> row) i M.

(** Modelled from the spec: [M.submatrix(n, 0)] of sage/matrix, the rows
    from [n] on with all their columns. *)
Definition submatrix_from_row (M : matrix) (n : nat) : matrix := drop n M.

(** Modelled from the spec: [_principal_part(M)] of mutation_class.py (not
    under src/), the square matrix left when the frozen rows are dropped. *)
Definition _principal_part (M : matrix) : matrix := take (ncols M) M.

(** The error of [reset_principal_coefficients]:
    'The numbers of cluster variables and of frozen variables do not coincide.' *)
Inductive reset_error := numbers_do_not_coincide.

(** A list comprehension whose body can raise: the first exception stops
    it. *)
Fixpoint collect {A B} (f : A -> result B) (l : list A) : result (list B) :=
  match l with
  | [] => Return []
  | a :: l' =>
      match f a with
      | Raise e => Raise e
      | Return b =>
          match collect f l' with
          | Raise e => Raise e
          | Return bs => Return (b :: bs)
          end
      end
  end.

Section Methods.

Context {R : FractionField}.

(** [b_matrix()] *)
Definition b_matrix (self : ClusterSeed R) : matrix := _M self.

(** [cluster()] *)
Definition cluster (self : ClusterSeed R) : result (list (ClusterVariable R)) :=
  collect (fun k => cluster_variable self (Z.of_nat k)) (seq 0 (_n self)).

(** [f_polynomials(ignore_coefficients)] *)
Definition f_polynomials (self : ClusterSeed R) (ignore_coefficients : bool)
    : result (list R) :=
  if negb (ignore_coefficients || is_principal_set self) then
    Raise (ValueError msg_no_principal_coefficients)
  else
    collect (fun k => f_polynomial self (Z.of_nat k) ignore_coefficients)
            (seq 0 (_n self)).

(** [c_matrix(ignore_coefficients)] *)
Definition c_matrix (self : ClusterSeed R) (ignore_coefficients : bool)
    : result matrix :=
  if negb (ignore_coefficients || is_principal_set self) then
    Raise (ValueError msg_no_principal_coefficients)
  else Return (submatrix_from_row (_M self) (_n self)).


(** [reset_cluster()] *)
Definition reset_cluster (self : ClusterSeed R) : ClusterSeed R * result unit :=
  set_cluster self (gens R (fst (_R self)) (snd (_R self))).

(** The loops of [reset_principal_coefficients]. *)
Definition reset_bottom_block (M : matrix) (n m : nat) : matrix :=
  foldl (fun M i =>
           foldl (fun M j => matrix_set M (i + n) j (if decide (i = j) then 1%Z else 0%Z))
                 M (seq 0 n))
        M (seq 0 m).

(** [reset_principal_coefficients()] *)
Definition reset_principal_coefficients (self : ClusterSeed R)
    : ClusterSeed R * (reset_error + unit) :=
  if negb (_n self =? _m self) then (self, inl numbers_do_not_coincide)
  else
    (with_quiver (with_M self (reset_bottom_block (_M self) (_n self) (_m self))) None,
     inr tt).

(** [exchangeable_part()]; the keys [y(i)] of the dictionary are the
    generators n..n+m-1. *)
Definition exchangeable_part (self : ClusterSeed R) : result (ClusterSeed R) :=
  let eval_dict := map (fun i => (_n self + i, 1%Z)) (seq 0 (_m self)) in
  let seed := init (DataMatrix (_principal_part (_M self))) None in
  match collect (fun k => match subs R eval_dict (cluster_at (_cluster self) k) with
                          | Some v => Return v
                          | None => Raise ZeroDivisionError
                          end) (seq 0 (_n self)) with
  | Raise e => Raise e
  | Return cluster' =>
      Return (with_mutation_type (with_cluster seed cluster') (_mutation_type self))
  end.

(** The cached quiver, when there is one, was built from the current
    matrix. *)
Definition quiver_coherent (s : ClusterSeed R) : Prop :=
  forall q, _quiver s = Some q -> q_M q = _M s.

(** The field of the seed is the one with n and m generators. *)
Definition field_matches (s : ClusterSeed R) : Prop := _R s = (_n s, _m s).

(** The generators of every field are as many as announced and belong to
    it. *)
Record GeneratorLaws : Prop := {
  gens_length : forall n m, length (gens R n m) = n + m;
  gens_contained : forall n m g, In g (gens R n m) -> contains R n m g = true;
}.

End Methods.

Arguments GeneratorLaws R : clear implicits.

(** Row [i] of the identity matrix of size [n]. *)
Definition identity_row (n i : nat) : list Z :=
  map (fun j => if decide (i = j) then 1%Z else 0%Z) (seq 0 n).

(** The [k]-th unit vector of length [n]. *)
Definition unit_vector (n k : nat) : list Z :=
  map (fun i => if decide (i = k) then 1%Z else 0%Z) (seq 0 n).

(** ** A computable field of rational functions

    Fractions of polynomials with integer coefficients in the generators
    0, 1, 2, ... (the fraction field of Z[x0, ...] is that of Q[x0, ...]).
    A polynomial is a list of terms with non-zero coefficients, sorted by
    strictly decreasing monomial; a monomial is its list of exponents without
    trailing zeros. Fractions are kept reduced, with a denominator whose
    leading coefficient is positive, as Sage keeps them; two fractions are
    compared by cross multiplication, as Sage's [==] does. *)
Module RatFun.

Abbreviation monomial := (list nat).
Abbreviation poly := (list (monomial * Z)).

Fixpoint mono_mul (a b : monomial) : monomial :=
  match a, b with
  | [], _ => b
  | _, [] => a
  | e :: a', f :: b' => (e + f) :: mono_mul a' b'
  end.

(** Lexicographic comparison of exponent vectors. *)
Fixpoint mono_cmp (a b : monomial) : comparison :=
  match a, b with
  | [], [] => Eq
  | [], _ :: _ => Lt
  | _ :: _, [] => Gt
  | e :: a', f :: b' =>
      match Nat.compare e f with
      | Eq => mono_cmp a' b'
      | c => c
      end
  end.

Fixpoint trim (a : monomial) : monomial :=
  match a with
  | [] => []
  | e :: a' =>
      match trim a', e with
      | [], 0 => []
      | t, _ => e :: t
      end
  end.

Definition pconst (c : Z) : poly :=
  if (c =? 0)%Z then [] else [([], c)].

Definition pvar (i : nat) : poly := [(replicate i 0 ++ [1], 1%Z)].

Fixpoint padd (p q : poly) : poly :=
  match p with
  | [] => q
  | (m, c) :: p' =>
      (fix merge (q : poly) : poly :=
         match q with
         | [] => (m, c) :: p'
         | (m', c') :: q' =>
             match mono_cmp m m' with
             | Gt => (m, c) :: padd p' q
             | Lt => (m', c') :: merge q'
             | Eq => if (c + c' =? 0)%Z then padd p' q'
                     else (m, (c + c')%Z) :: padd p' q'
             end
         end) q
  end.

Definition pscale (t : monomial * Z) (q : poly) : poly :=
  map (fun u => (mono_mul (fst t) (fst u), (snd t * snd u)%Z)) q.

Definition pmul (p q : poly) : poly :=
  foldr (fun t acc => padd (pscale t q) acc) [] p.

Definition peqb (p q : poly) : bool := bool_decide (p = q).

(** The term obtained from [t] by giving generator [i] the value [v]. *)
Definition term_subs (i : nat) (v : Z) (t : monomial * Z) : monomial * Z :=
  (trim (<[i := 0]> (fst t)), (snd t * v ^ Z.of_nat (default 0%nat (fst t !! i)))%Z).

Definition psubs (eval_dict : list (nat * Z)) (p : poly) : poly :=
  foldr (fun t acc =>
           let t' := foldr (fun iv u => term_subs (fst iv) (snd iv) u) t eval_dict in
           if (snd t' =? 0)%Z then acc else padd [t'] acc)
        [] p.

(** [p.degrees()] on the generators 0..N-1. *)
Definition degrees (N : nat) (p : poly) : list Z :=
  map (fun i => Z.of_nat (foldr (fun t d => Nat.max (default 0 (fst t !! i)) d) 0 p))
      (seq 0 N).

(** *** Greatest common divisors

    Sage keeps every fraction reduced. The greatest common divisor of two
    polynomials is computed variable by variable: with respect to the
    variable [v] a polynomial has a content (the greatest common divisor of
    its coefficients, polynomials in the later variables) and a primitive
    part, and the primitive parts are brought down by pseudo-remainders. *)

Definition pneg (p : poly) : poly := map (fun t => (fst t, (- snd t)%Z)) p.
Definition psub (p q : poly) : poly := padd p (pneg q).

(** The exponent of the variable [v] in a monomial, the degree of a
    polynomial in [v] and the number of variables it mentions. *)
Definition mexp (v : nat) (m : monomial) : nat := default 0 (m !! v).
Definition deg_in (v : nat) (p : poly) : nat :=
  foldr (fun t d => Nat.max (mexp v (fst t)) d) 0 p.
Definition nvars (p : poly) : nat :=
  foldr (fun t n => Nat.max (length (fst t)) n) 0 p.

(** [a / b] for monomials, when [b] divides [a]. *)
Fixpoint mono_div (a b : monomial) : option monomial :=
  match a, b with
  | _, [] => Some a
  | [], _ :: _ => None
  | e :: a', f :: b' =>
      if f <=? e then
        match mono_div a' b' with
        | Some m => Some (trim ((e - f) :: m))
        | None => None
        end
      else None
  end.

(** Division of [p] by [q] on the leading terms; [None] when [q] does not
    divide [p]. *)
Fixpoint pdiv_loop (fuel : nat) (p q acc : poly) : option poly :=
  match fuel with
  | 0 => None
  | S fuel' =>
      match p, q with
      | [], _ => Some acc
      | _ :: _, [] => None
      | (m, c) :: _, (m', c') :: _ =>
          match mono_div m m' with
          | Some d =>
              if (c mod c' =? 0)%Z then
                let t := (d, (c / c')%Z) in
                pdiv_loop fuel' (psub p (pscale t q)) q (padd acc [t])
              else None
          | None => None
          end
      end
  end.

(** A bound on the number of monomials of the quotient. *)
Definition monomial_bound (p : poly) : nat :=
  foldr (fun v acc => S (deg_in v p) * acc) 1 (seq 0 (nvars p)).

Definition pdiv_exact (p q : poly) : option poly :=
  pdiv_loop (S (S (monomial_bound p))) p q [].

(** The quotient of a division known to be exact. *)
Definition pquo (p q : poly) : poly := default p (pdiv_exact p q).

(** The coefficient of [x_v^d] in [p], a polynomial without [x_v]. *)
Definition coeff_in (v d : nat) (p : poly) : poly :=
  map (fun t => (trim (<[v := 0]> (fst t)), snd t))
      (List.filter (fun t => mexp v (fst t) =? d) p).

Definition lc_in (v : nat) (p : poly) : poly := coeff_in v (deg_in v p) p.

(** The monomial [x_v^k]. *)
Definition mono_pow (v k : nat) : monomial :=
  if k =? 0 then [] else replicate v 0 ++ [k].

(** The pseudo-remainder of [a] by [b] with respect to [x_v]. *)
Fixpoint prem_loop (fuel v : nat) (a b : poly) : poly :=
  match fuel with
  | 0 => a
  | S fuel' =>
      if peqb a [] then a
      else if deg_in v a <? deg_in v b then a
      else
        prem_loop fuel' v
          (psub (pmul (lc_in v b) a)
                (pmul (pscale (mono_pow v (deg_in v a - deg_in v b), 1%Z) (lc_in v a)) b))
          b
  end.

Definition prem (v : nat) (a b : poly) : poly :=
  prem_loop (S (S (deg_in v a))) v a b.

(** The sign that makes the leading coefficient positive. *)
Definition normalize (p : poly) : poly :=
  match p with
  | (_, c) :: _ => if (c <? 0)%Z then pneg p else p
  | [] => []
  end.

Section Level.

(** The greatest common divisor of the coefficients. *)
Variable cg : poly -> poly -> poly.

Definition content (v : nat) (p : poly) : poly :=
  foldr (fun d acc => cg (coeff_in v d p) acc) [] (seq 0 (S (deg_in v p))).

Definition primitive_part (v : nat) (p : poly) : poly :=
  match p with
  | [] => []
  | _ => pquo p (content v p)
  end.

Fixpoint prs_loop (fuel v : nat) (a b : poly) : poly :=
  match fuel with
  | 0 => a
  | S fuel' =>
      if peqb b [] then a
      else prs_loop fuel' v b (primitive_part v (prem v a b))
  end.

End Level.

Definition constant_of (p : poly) : Z :=
  match p with
  | (_, c) :: _ => c
  | [] => 0%Z
  end.

(** The greatest common divisor of two polynomials in the variables from
    [v] on, [remaining] of them. *)
Fixpoint pgcd_from (remaining v : nat) (p q : poly) : poly :=
  match remaining with
  | 0 => pconst (Z.gcd (constant_of p) (constant_of q))
  | S remaining' =>
      let cg := pgcd_from remaining' (S v) in
      if peqb p [] then normalize q
      else if peqb q [] then normalize p
      else
        let cp := content cg v p in
        let cq := content cg v q in
        let h := prs_loop cg (S (S (deg_in v p + deg_in v q))) v (pquo p cp) (pquo q cq) in
        normalize (pmul (cg cp cq) (primitive_part cg v h))
  end.

Definition pgcd (p q : poly) : poly :=
  pgcd_from (Nat.max (nvars p) (nvars q)) 0 p q.

(** *** Fractions *)

Record fraction := { num : poly; den : poly }.

(** The reduced fraction [n / d]: numerator and denominator without a common
    factor, the leading coefficient of the denominator positive. *)
Definition reduce (n d : poly) : fraction :=
  let g := pgcd n d in
  let n' := pquo n g in
  let d' := pquo d g in
  match d' with
  | (_, c) :: _ =>
      if (c <? 0)%Z then {| num := pneg n'; den := pneg d' |}
      else {| num := n'; den := d' |}
  | [] => {| num := n'; den := d' |}
  end.

Definition rconst (c : Z) : fraction := {| num := pconst c; den := pconst 1 |}.
Definition rvar (i : nat) : fraction := {| num := pvar i; den := pconst 1 |}.
Definition of_poly (p : poly) : fraction := {| num := p; den := pconst 1 |}.

Definition radd (a b : fraction) : fraction :=
  reduce (padd (pmul (num a) (den b)) (pmul (num b) (den a)))
         (pmul (den a) (den b)).

Definition rmul (a b : fraction) : fraction :=
  reduce (pmul (num a) (num b)) (pmul (den a) (den b)).

(** The inverse; no caller inverts zero, which is sent to zero. *)
Definition rinv (a : fraction) : fraction :=
  if peqb (num a) [] then rconst 0 else reduce (den a) (num a).

Definition reqb (a b : fraction) : bool :=
  peqb (pmul (num a) (den b)) (pmul (num b) (den a)).

Definition rgens (n m : nat) : list fraction := map rvar (seq 0 (n + m)).

(** Membership in the field on the first [n + m] generators. *)
Definition poly_in (N : nat) (p : poly) : bool :=
  forallb (fun t => length (fst t) <=? N) p.

Definition rcontains (n m : nat) (a : fraction) : bool :=
  poly_in (n + m) (num a) && poly_in (n + m) (den a).

(** Substitution: numerator and denominator are evaluated and divided;
    there is no value where the denominator vanishes (Sage raises
    [ZeroDivisionError]). *)
Definition rsubs (eval_dict : list (nat * Z)) (a : fraction) : option fraction :=
  let d := psubs eval_dict (den a) in
  if peqb d [] then None else Some (reduce (psubs eval_dict (num a)) d).

(** Degrees of numerator and denominator of the reduced fraction. *)
Definition rnum_degrees (N : nat) (a : fraction) : list Z := degrees N (num a).
Definition rden_degrees (N : nat) (a : fraction) : list Z := degrees N (den a).

Definition field_ops : FieldOps :=
  {| carrier := fraction; fzero := rconst 0; fone := rconst 1;
     fadd := radd; fmul := rmul; finv := rinv; feqb := reqb |}.

Definition field : FractionField :=
  {| ops := field_ops; gens := rgens; contains := rcontains; subs := rsubs;
     numerator_degrees := rnum_degrees; denominator_degrees := rden_degrees |}.

End RatFun.

(** The rational numbers, the constants of every field of rational
    functions, with their canonical representation. *)
(** The laws of exact field arithmetic, stated for Sage's [==]. *)
Record FieldLaws (K : FieldOps) : Prop := {
  feq_refl : forall a : K, feq a a;
  feq_sym : forall a b : K, feq a b -> feq b a;
  feq_trans : forall a b c : K, feq a b -> feq b c -> feq a c;
  fmul_feq : forall a a' b b' : K, feq a a' -> feq b b' -> feq (fmul K a b) (fmul K a' b');
  fadd_comm : forall a b : K, feq (fadd K a b) (fadd K b a);
  fmul_comm : forall a b : K, feq (fmul K a b) (fmul K b a);
  fmul_assoc : forall a b c : K, feq (fmul K a (fmul K b c)) (fmul K (fmul K a b) c);
  fmul_one_l : forall a : K, feq (fmul K (fone K) a) a;
  fmul_zero_l : forall a : K, feq (fmul K (fzero K) a) (fzero K);
  fmul_inv_r : forall a : K, ~ feq a (fzero K) -> feq (fmul K a (finv K a)) (fone K);
}.

Definition Qc_ops : FieldOps :=
  {| carrier := Qc; fzero := 0%Qc; fone := 1%Qc;
     fadd := Qcplus; fmul := Qcmult; finv := Qcinv;
     feqb := fun a b => Qeq_bool a b |}.

(** * The enumerated set of non negative integers

    [sage/sets/non_negative_integers.py], class [NonNegativeIntegers]. *)
Module NonNegativeIntegers.

(** The objects tried as elements: integers, and objects that [Integer(elt)]
    cannot convert and for which it raises [TypeError], such as the symbolic
    variable [x] of the doctests. *)
Inductive object :=
| Int (z : Z)
| Unconvertible (name : string).

(** [Integer(elt)]; [None] stands for the [TypeError]. *)
Definition Integer (elt : object) : option Z :=
  match elt with
  | Int z => Some z
  | Unconvertible _ => None
  end.

(** [__contains__(elt)] *)
Definition contains (elt : object) : bool :=
  match Integer elt with
  | Some z => (0 <=? z)%Z
  | None => false
  end.

Inductive error :=
| not_in (i : object)   (* ValueError: 'Value %s in not in %s.' *)
| type_error.           (* the TypeError of [Integer] *)

(** [from_integer = Integer] *)
Definition from_integer (i : object) : error + Z :=
  match Integer i with
  | Some z => inr z
  | None => inl type_error
  end.

(** [_element_constructor_(i)] *)
Definition _element_constructor_ (i : object) : error + Z :=
  if contains i then from_integer i else inl (not_in i).

(** [next(o)] and [unrank(rnk)] on integers *)
Definition next (o : Z) : Z := (o + 1)%Z.
Definition unrank (rnk : Z) : Z := rnk.

(** [an_element()] and [some_elements()] *)
Definition an_element : Z := 42%Z.
Definition some_elements : list Z := [0; 1; 3; 42]%Z.

(** [__iter__]: the generator keeps the counter [i]; one step yields
    [from_integer(i)] and increments the counter. *)
Definition generator_step (i : Z) : Z * Z := (i, (i + 1)%Z).

(** The first [count] values that the generator started at counter [i]
    yields. *)
Fixpoint yielded (count : nat) (i : Z) : list Z :=
  match count with
  | 0 => []
  | S count' =>
      let '(value, i') := generator_step i in
      value :: yielded count' i'
  end.

(** [iter(NN)] starts with [i = 0]. *)
Definition first_values (count : nat) : list Z := yielded count 0%Z.

End NonNegativeIntegers.

(** * Torsion subgroups of elliptic curves over the rationals

    [sage/schemes/elliptic_curves/rational_torsion.py], class
    [EllipticCurveTorsionSubgroup]. The curve, the PARI computation, the
    doubling of the precision, the conversion of points and their heights
    belong to other classes and are parameters. *)
Module RationalTorsion.

Section Model.

(** The state of the curve object (it holds the PARI precision), the points
    as PARI returns them and the points of the curve. *)
Variables (curve pari_point point : Type).

(** What [elltors] returns: order, structure and generators. *)
Record pari_group := {
  G_order : Z;
  G_structure : list Z;
  G_gens : list pari_point;
}.

(** The outcomes of [self.__E.pari_curve().elltors(flag)]. *)
Inductive attempt :=
| Computed (G : pari_group)
| RuntimeError_raised
| Other_raised (what : string).

Variable elltors : curve -> Z -> attempt.

(** The handler [self.__E.__pari_double_prec()]: the new state of the
    curve, or [None] when the call itself raises. *)
Variable pari_double_prec : curve -> option curve.

(** [self.__E(P)] and [P.height()] *)
Variable point_of : pari_point -> point.
Variable height : point -> Q.

Inductive init_error :=
| could_not_compute          (* RuntimeError: 'Could not compute torsion subgroup' *)
| handler_raised             (* an exception of the handler *)
| propagated (what : string) (* an exception of elltors that is not caught *).

(** The loop [while G is None and loop < 3], with [remaining] passes
    left: the state of the curve, and [G] or the exception that left the
    loop. *)
Fixpoint attempts (remaining : nat) (E : curve) (flag : Z)
    : curve * (init_error + option pari_group) :=
  match remaining with
  | 0 => (E, inr None)
  | S remaining' =>
      match elltors E flag with
      | Computed G => (E, inr (Some G))
      | RuntimeError_raised =>
          match pari_double_prec E with
          | Some E' => attempts remaining' E' flag
          | None => (E, inl handler_raised)
          end
      | Other_raised what => (E, inl (propagated what))
      end
  end.

(** [list.sort(key=...)]: Python's sort is stable, which determines its
    result; it is computed here by stable insertion. *)
Fixpoint insert_by_height (P : point) (l : list point) : list point :=
  match l with
  | [] => [P]
  | P' :: l' =>
      if Qle_bool (height P') (height P) then P' :: insert_by_height P l'
      else P :: P' :: l'
  end.

Definition sort_by_height (l : list point) : list point :=
  foldl (fun sorted P => insert_by_height P sorted) [] l.

Record EllipticCurveTorsionSubgroup := {
  __E : curve;
  __torsion_gens : list point;
  group_order : Z;
  group_structure : list Z;
}.

(** [__init__(E, flag)] *)
Definition init (E : curve) (flag : Z) : init_error + EllipticCurveTorsionSubgroup :=
  match attempts 3 E flag with
  | (_, inl e) => inl e
  | (_, inr None) => inl could_not_compute
  | (E', inr (Some G)) =>
      inr {| __E := E';
             __torsion_gens := sort_by_height (map point_of (G_gens G));
             group_order := G_order G;
             group_structure := G_structure G |}
  end.

(** [gen(i)]: Python's indexing of a list, [None] for the IndexError. *)
Definition gen (self : EllipticCurveTorsionSubgroup) (i : Z) : option point :=
  let len := Z.of_nat (length (__torsion_gens self)) in
  if (0 <=? i)%Z then __torsion_gens self !! Z.to_nat i
  else if (- len <=? i)%Z then __torsion_gens self !! Z.to_nat (len + i)
  else None.

(** The state of the curve after [j] doublings of the precision. *)
Fixpoint doubled (j : nat) (E : curve) : option curve :=
  match j with
  | 0 => Some E
  | S j' =>
      match pari_double_prec E with
      | Some E' => doubled j' E'
      | None => None
      end
  end.

End Model.

Arguments Computed {pari_point} G.
Arguments RuntimeError_raised {pari_point}.
Arguments Other_raised {pari_point} what.
Arguments attempts {curve pari_point} elltors pari_double_prec remaining E flag.
Arguments insert_by_height {point} height P l.
Arguments sort_by_height {point} height l.
Arguments init {curve pari_point point} elltors pari_double_prec point_of height E flag.
Arguments gen {curve point} self i.
Arguments doubled {curve} pari_double_prec j E.
Arguments __E {curve point} e.
Arguments __torsion_gens {curve point} e.
Arguments group_order {curve point} e.
Arguments group_structure {curve point} e.

(** A curve whose torsion PARI computes once the precision, 1 at first, has
    reached 4: the state of the curve is its precision, points are
    integers and the height of a point is its value. *)
Definition example_elltors (precision : nat) (flag : Z) : attempt Z :=
  if precision <? 4 then RuntimeError_raised
  else Computed {| G_order := 4; G_structure := [2; 2]%Z; G_gens := [3; 1; 2]%Z |}.

Definition example_double_prec (precision : nat) : option nat := Some (2 * precision).

Definition example_init (precision : nat) :=
  init example_elltors example_double_prec (fun P : Z => P) inject_Z precision 0.

End RationalTorsion.

(** ** Scenarios *)

(** The exchange matrix of [ClusterSeed(['A',4])], from the doctest of
    [b_matrix]. *)
Definition A4_matrix : matrix :=
  [[0; 1; 0; 0]; [-1; 0; -1; 0]; [0; 1; 0; 1]; [0; 0; -1; 0]]%Z.

(** The exchange matrix of [ClusterSeed(['A',3])], the top block in the
    doctest of [reset_principal_coefficients]. *)
Definition A3_matrix : matrix :=
  [[0; 1; 0]; [-1; 0; -1]; [0; 1; 0]]%Z.

Definition A2_matrix : matrix := [[0; 1]; [-1; 0]]%Z.

Definition seed_of_type (M : matrix) (type : string) : ClusterSeed RatFun.field :=
  with_mutation_type (init (DataMatrix M) None) (Some type).

Definition A4_seed := seed_of_type A4_matrix "['A', 4]".
Definition A3_seed := seed_of_type A3_matrix "['A', 3]".
Definition A2_seed := seed_of_type A2_matrix "['A', 2]".

(** The seed [A2_seed] after [set_cluster([1, -1])]. *)
Definition degenerate_seed : ClusterSeed RatFun.field :=
  fst (set_cluster A2_seed [RatFun.rconst 1; RatFun.rconst (-1)]).

(** The principal extension of [A3_seed] (with a default for the error
    case, which does not occur). *)
Definition A3_principal : ClusterSeed RatFun.field :=
  match principal_extension A3_seed false with
  | Return s => s
  | Raise _ => A3_seed
  end.

(** The seed built from the matrix [[0],[1],[1]] with [is_principal=True]:
    one exchangeable and two frozen variables. *)
Definition rectangular_seed : ClusterSeed RatFun.field :=
  init (DataMatrix [[0]; [1]; [1]]%Z) (Some true).

(** [A3_seed] after [mutate(1)]. *)
Definition A3_mutated : ClusterSeed RatFun.field :=
  fst (mutate A3_seed (PInt 1) (FBool true)).

(** A seed over the constants: the matrix of type A2 with cluster [2, 3]. *)
Definition constant_seed : ClusterSeed Qc_ops :=
  {| _M := A2_matrix; _cluster := ([Q2Qc 2; Q2Qc 3] : list Qc_ops);
     _n := 2; _m := 0; _R := (2, 0);
     _quiver := None; _mutation_type := None;
     _description := rank_description 2; _is_principal := None |}.

(** * Properties *)

(** Both sides of an equation are evaluated; its type stays as written. *)
Ltac evaluate :=
  lazymatch goal with
  | |- @eq ?T ?a ?b =>
      let a' := eval vm_compute in a in
      tryif is_evar b then change (@eq T a' b)
      else (let b' := eval vm_compute in b in change (@eq T a' b'))
  | |- _ => vm_compute
  end.

Ltac evaluate_in H :=
  lazymatch type of H with
  | @eq ?T ?a ?b =>
      let a' := eval vm_compute in a in
      let b' := eval vm_compute in b in
      change (@eq T a' b') in H
  | _ => vm_compute in H
  end.


(** ** The exchange matrix *)

Section MatrixFacts.

Implicit Types (M : matrix) (i j k l : nat).

Lemma entry_lookup M i j row a :
  M !! i = Some row -> row !! j = Some a -> entry M i j = a.
Proof. intros Hi Hj. unfold entry. by rewrite Hi, Hj. Qed.

Lemma lookup_matrix_mutate M k i :
  matrix_mutate M k !! i = imap (mutated_entry M k i) <$> M !! i.
Proof. unfold matrix_mutate. by rewrite list_lookup_imap. Qed.

Lemma entry_matrix_mutate M k i j :
  entry (matrix_mutate M k) i j =
  match M !! i with
  | Some row => match row !! j with Some a => mutated_entry M k i j a | None => 0%Z end
  | None => 0%Z
  end.
Proof.
  unfold entry. rewrite lookup_matrix_mutate.
  destruct (M !! i) as [row|]; simpl; [|done].
  rewrite list_lookup_imap. by destruct (row !! j).
Qed.

(** Column [k] changes sign. *)
Lemma entry_mutate_column M k i :
  entry (matrix_mutate M k) i k = (- entry M i k)%Z.
Proof.
  rewrite entry_matrix_mutate. unfold entry, mutated_entry.
  destruct (M !! i) as [row|]; [|done]. destruct (row !! k); [|done].
  rewrite bool_decide_eq_true_2; auto.
Qed.

(** Row [k] changes sign. *)
Lemma entry_mutate_row M k j :
  entry (matrix_mutate M k) k j = (- entry M k j)%Z.
Proof.
  rewrite entry_matrix_mutate. unfold entry, mutated_entry.
  destruct (M !! k) as [row|]; [|done]. destruct (row !! j); [|done].
  rewrite bool_decide_eq_true_2; auto.
Qed.



Lemma matrix_mutate_involutive M k :
  matrix_mutate (matrix_mutate M k) k = M.
Proof.
  apply list_eq; intros i. rewrite !lookup_matrix_mutate.
  destruct (M !! i) as [row|] eqn:Hi; simpl; [|done]. f_equal.
  apply list_eq; intros j. rewrite !list_lookup_imap.
  destruct (row !! j) as [a|] eqn:Hj; simpl; [|done]. f_equal.
  unfold mutated_entry. rewrite entry_mutate_column, entry_mutate_row.
  case_bool_decide; [lia|]. rewrite Z.sgn_opp, Z.mul_opp_opp. ring.
Qed.


End MatrixFacts.

(** ** Mutation *)

Section MutateFacts.

Context {K : FieldOps}.
Implicit Types (s : ClusterSeed K) (k l : nat) (c : list K).

Lemma in_range_nat n k : k < n -> in_range n (PInt (Z.of_nat k)) = true.
Proof. intros Hk. unfold in_range. apply andb_true_intro. split; lia. Qed.

Lemma in_range_index n v : in_range n v = true -> index_of v < n.
Proof.
  destruct v; simpl; try discriminate.
  intros [H1 H2]%andb_prop. lia.
Qed.

(** A pass of the outer loop either stops on a zero variable or yields
    [mutated]. *)
Lemma mutate_step_unfold s k :
  mutate_step s k =
  if feqb K (cluster_at (_cluster s) k) (fzero K) then Raise ZeroDivisionError
  else Return (mutated s k).
Proof.
  unfold mutate_step, mutated, exchanged_variable, exchange_binomial, fpow_minus_one.
  destruct (exchange_monomials _ _ _ _) as [mon_p mon_n].
  by destruct (feqb K _ _).
Qed.

Lemma mutate_step_with_quiver s q k :
  mutate_step (with_quiver s q) k =
  match mutate_step s k with
  | Return s' => Return (with_quiver s' q)
  | Raise e => Raise e
  end.
Proof. rewrite !mutate_step_unfold. simpl. by destruct (feqb K _ _). Qed.

(** A call at one valid vertex is one pass of the loop. *)
Lemma mutate_vertex s k :
  k < _n s ->
  mutate s (PInt (Z.of_nat k)) (FBool true) =
  match mutate_step s k with
  | Return s' => (with_quiver s' None, Return None)
  | Raise e => (s, Raise e)
  end.
Proof.
  intros Hk. unfold mutate. cbn [truth].
  rewrite (in_range_nat _ _ Hk). unfold mutate_list. cbn [type_is_bool negb List.filter].
  rewrite (in_range_nat _ _ Hk). cbn [negb map index_of mutate_loop].
  rewrite Nat2Z.id. by destruct (mutate_step s k).
Qed.


(** When column [k] changes sign the two monomials change places. *)
Lemma monomials_swap M M' c c' k js acc :
  (forall j, entry M' j k = (- entry M j k)%Z) ->
  (forall j, entry M j k <> 0%Z -> cluster_at c' j = cluster_at c j) ->
  foldl (monomial_step M' c' k) (prod_swap acc) js
  = prod_swap (foldl (monomial_step M c k) acc js).
Proof.
  intros HM Hc. revert acc. induction js as [|j js IH]; intros acc; [done|].
  simpl. rewrite <- IH. f_equal.
  unfold monomial_step. destruct acc as [mon_p mon_n]. simpl. rewrite HM.
  destruct (0 <? entry M j k)%Z eqn:Hp.
  - assert ((0 <? - entry M j k) = false)%Z as -> by lia.
    assert ((- entry M j k <? 0) = true)%Z as -> by lia.
    rewrite Z.opp_involutive, Hc; [done|lia].
  - destruct (entry M j k <? 0)%Z eqn:Hn.
    + assert ((0 <? - entry M j k) = true)%Z as -> by lia.
      rewrite Hc; [done|lia].
    + assert ((0 <? - entry M j k) = false)%Z as -> by lia.
      by assert ((- entry M j k <? 0) = false)%Z as -> by lia.
Qed.

Lemma cluster_at_insert_ne c k j (v : K) :
  k <> j -> cluster_at (<[k := v]> c) j = cluster_at c j.
Proof. intros Hne. unfold cluster_at. by rewrite list_lookup_insert_ne. Qed.

Lemma cluster_at_insert_eq c k (v : K) :
  k < length c -> cluster_at (<[k := v]> c) k = v.
Proof. intros Hk. unfold cluster_at. by rewrite list_lookup_insert_eq. Qed.



End MutateFacts.

(** ** Involution *)

Section Involution.

Context {K : FieldOps} (L : FieldLaws K).
Implicit Types (s : ClusterSeed K) (a b x : K).

#[local] Instance feq_equivalence : Equivalence (@feq K).
Proof.
  split.
  - intros a. apply (feq_refl K L).
  - intros a b. apply (feq_sym K L).
  - intros a b c. apply (feq_trans K L).
Qed.

#[local] Instance fmul_proper : Proper (feq ==> feq ==> feq) (fmul K).
Proof. intros a a' Ha b b' Hb. by apply (fmul_feq K L). Qed.

Lemma fmul_one_r a : feq (fmul K a (fone K)) a.
Proof. rewrite (fmul_comm K L a (fone K)). apply (fmul_one_l K L). Qed.

(** The new variable of a non-degenerate exchange is not zero. *)
Lemma exchanged_nonzero x b :
  ~ feq x (fzero K) -> ~ feq b (fzero K) ->
  ~ feq (fmul K b (finv K x)) (fzero K).
Proof.
  intros Hx Hb Hv. apply Hb.
  rewrite <- (fmul_one_r b), <- (fmul_inv_r K L x Hx).
  rewrite (fmul_comm K L x (finv K x)), (fmul_assoc K L), Hv.
  apply (fmul_zero_l K L).
Qed.

(** Exchanging twice with the same binomial gives the variable back. *)
Lemma exchange_back x b b' :
  ~ feq x (fzero K) -> ~ feq (fmul K b (finv K x)) (fzero K) -> feq b' b ->
  feq (fmul K b' (finv K (fmul K b (finv K x)))) x.
Proof.
  intros Hx Hv Hb. rewrite Hb.
  set (v := fmul K b (finv K x)) in *.
  assert (feq (fmul K (fmul K b (finv K v)) (fmul K (finv K x) x)) (fmul K b (finv K v)))
    as H1.
  { rewrite (fmul_comm K L (finv K x) x), (fmul_inv_r K L x Hx). apply fmul_one_r. }
  rewrite <- H1, (fmul_assoc K L).
  rewrite <- (fmul_assoc K L b (finv K v) (finv K x)).
  rewrite (fmul_comm K L (finv K v) (finv K x)), (fmul_assoc K L b).
  fold v. rewrite (fmul_inv_r K L v Hv). apply (fmul_one_l K L).
Qed.

Lemma skew_symmetrizable_diagonal n (M : matrix) k :
  skew_symmetrizable n M -> k < n -> entry M k k = 0%Z.
Proof.
  intros (d & Hd & Hskew) Hk.
  specialize (Hd k Hk). specialize (Hskew k k Hk Hk). nia.
Qed.

(** After the mutation at [k] the binomial at [k] is the old one with its
    two monomials exchanged. *)
Lemma exchange_binomial_mutated s k :
  entry (_M s) k k = 0%Z ->
  feq (exchange_binomial (mutated s k) k) (exchange_binomial s k).
Proof.
  intros Hdiag. unfold exchange_binomial, exchange_monomials.
  cbn [mutated with_M with_cluster _M _cluster _n _m].
  change (fone K, fone K) with (prod_swap (fone K, fone K)) at 1.
  rewrite (monomials_swap (_M s) _ (_cluster s)).
  - destruct (foldl _ _ _) as [mon_p mon_n]. apply (fadd_comm K L).
  - intros j. apply entry_mutate_column.
  - intros j Hj. apply cluster_at_insert_ne. by intros ->.
Qed.

Lemma Forall2_feq_refl (c : list K) : Forall2 feq c c.
Proof. induction c; constructor; [reflexivity|done]. Qed.

Lemma cluster_eqb_true (c d : list K) : Forall2 feq c d -> cluster_eqb c d = true.
Proof.
  induction 1 as [|a b c d Hab _ IH]; [done|].
  simpl. by rewrite Hab, IH.
Qed.

(** C1, as amended: for every seed satisfying the class invariant and every
    exchangeable vertex k whose cluster variable and exchange binomial
    [mon_p + mon_n] are not zero, calling [mutate] at k and then again at k
    completes and returns the seed to its original state: the exchange
    matrix is the same and every cluster variable is [==] to what it was. *)
Theorem mutate_twice_nondegenerate s k :
  wf_seed s -> k < _n s ->
  ~ feq (cluster_at (_cluster s) k) (fzero K) ->
  ~ feq (exchange_binomial s k) (fzero K) ->
  involution_at s k.
Proof.
  intros [(HM & Hrows & Hlen) Hskew] Hk Hx Hb.
  pose proof (skew_symmetrizable_diagonal _ _ _ Hskew Hk) as Hdiag.
  pose proof (exchanged_nonzero _ _ Hx Hb) as Hv.
  assert (k < length (_cluster s)) as Hklen by lia.
  unfold involution_at.
  rewrite (mutate_vertex s k Hk), mutate_step_unfold.
  destruct (feqb K (cluster_at (_cluster s) k) (fzero K)) eqn:Hzx; [by destruct Hx|].
  cbn [then_mutate].
  rewrite (mutate_vertex (with_quiver (mutated s k) None) k) by done.
  rewrite mutate_step_with_quiver, mutate_step_unfold.
  assert (cluster_at (_cluster (mutated s k)) k = exchanged_variable s k) as Hat
    by (by apply cluster_at_insert_eq).
  rewrite Hat.
  destruct (feqb K (exchanged_variable s k) (fzero K)) eqn:Hzv; [by destruct Hv|].
  eexists. split; [reflexivity|].
  unfold seed_eq, matrix_eqb.
  cbn [with_quiver mutated with_M with_cluster _M _cluster].
  rewrite matrix_mutate_involutive, list_insert_insert_eq.
  assert (Forall2 feq (<[k := exchanged_variable (mutated s k) k]> (_cluster s))
                  (_cluster s)) as Hcluster.
  { destruct (lookup_lt_is_Some_2 _ _ Hklen) as [xk Hxk].
    rewrite <- (list_insert_id _ _ _ Hxk) at 2.
    apply Forall2_insert; [apply Forall2_feq_refl|].
    assert (cluster_at (_cluster s) k = xk) as Hcx by (unfold cluster_at; by rewrite Hxk).
    unfold exchanged_variable at 1. rewrite Hat. unfold exchanged_variable.
    rewrite <- Hcx.
    apply exchange_back; [done|done|]. by apply exchange_binomial_mutated. }
  split; [done|]. split; [done|].
  rewrite bool_decide_eq_true_2 by done. by apply cluster_eqb_true.
Qed.

End Involution.

Lemma feq_Qc (a b : Qc) : @feq Qc_ops a b <-> a = b.
Proof.
  unfold feq. simpl. rewrite Qeq_bool_iff. split.
  - apply Qc_is_canon.
  - by intros ->.
Qed.

Lemma Qc_laws : FieldLaws Qc_ops.
Proof.
  split; intros *; rewrite ?feq_Qc; simpl.
  - done.
  - done.
  - congruence.
  - congruence.
  - ring.
  - ring.
  - ring.
  - ring.
  - ring.
  - apply Qcmult_inv_r.
Qed.

Lemma A2_skew_symmetrizable : skew_symmetrizable 2 A2_matrix.
Proof.
  exists (fun _ => 1%Z). split; [lia|].
  intros [|[|i]] [|[|j]] Hi Hj; try lia; reflexivity.
Qed.

Lemma mutate_twice_constant_seed : involution_at constant_seed 0.
Proof.
  apply (mutate_twice_nondegenerate Qc_laws constant_seed 0).
  - split; [|exact A2_skew_symmetrizable].
    split; [reflexivity|]. split; [|reflexivity].
    repeat constructor.
  - simpl. lia.
  - intros H. evaluate_in H. discriminate.
  - intros H. evaluate_in H. discriminate.
Defined.

Lemma degenerate_seed_wf : wf_seed degenerate_seed.
Proof.
  split; [|exact A2_skew_symmetrizable].
  split; [reflexivity|]. split; [|reflexivity].
  repeat constructor.
Qed.

(** C1, as stated, fails on a seed whose cluster was set to [1, -1]: the
    first mutation at 0 makes the variable zero, the second one raises
    [ZeroDivisionError]. *)
Lemma mutate_twice_degenerate_seed :
  wf_seed degenerate_seed /\ 0 < _n degenerate_seed /\
  then_mutate (mutate degenerate_seed (PInt 0) (FBool true)) (PInt 0)
    = (fst (mutate degenerate_seed (PInt 0) (FBool true)), Raise ZeroDivisionError) /\
  ~ involution_at degenerate_seed 0.
Proof.
  split; [|split; [|split]].
  - exact degenerate_seed_wf.
  - simpl. lia.
  - evaluate. reflexivity.
  - intros (s2 & H & _). evaluate_in H. discriminate.
Qed.

(** ** Validation *)

Section Validation.

Context {K : FieldOps}.
Implicit Types (self seed : ClusterSeed K) (l : list pyval).

Lemma filter_first {A} (f : A -> bool) (xs : list A) x :
  In x xs -> f x = true ->
  exists v rest, List.filter f xs = v :: rest /\ f v = true.
Proof.
  induction xs as [|a xs IH]; intros Hin Hf; [destruct Hin|].
  simpl. destruct (f a) eqn:Ha; [by exists a, (List.filter f xs)|].
  destruct Hin as [-> |Hin]; [congruence|]. by apply IH.
Qed.

Lemma filter_none {A} (f : A -> bool) (xs : list A) x :
  List.filter f xs = [] -> In x xs -> f x = false.
Proof.
  induction xs as [|a xs IH]; intros Hnil Hin; [destruct Hin|].
  simpl in Hnil. destruct (f a) eqn:Ha; [discriminate|].
  destruct Hin as [-> |Hin]; [done|]. by apply IH.
Qed.


Lemma mutate_loop_fields seed ks seed' r :
  mutate_loop seed ks = (seed', r) ->
  _n seed' = _n seed /\ _m seed' = _m seed /\ _is_principal seed' = _is_principal seed.
Proof.
  revert seed. induction ks as [|k ks IH]; intros seed H; simpl in H.
  - by injection H as <- <-.
  - rewrite mutate_step_unfold in H.
    destruct (feqb K (cluster_at (_cluster seed) k) (fzero K)).
    + by injection H as <- <-.
    + by destruct (IH _ H) as (-> & -> & ->).
Qed.


End Validation.

(** ** The claims about [mutate] *)



(** C2, as stated, fails for a scalar index outside [0,n): the vertex 7 of a
    seed of rank 4 is rejected with the error of a malformed sequence
    (InvalidArgument), not with InvalidVertex. *)
Lemma mutate_scalar_out_of_range :
  in_range (_n A4_seed) (PInt 7) = false /\
  mutate A4_seed (PInt 7) (FBool true)
    = (A4_seed, Raise (ValueError msg_vertex_or_sequence)) /\
  ~ fails_with (snd (mutate A4_seed (PInt 7) (FBool true))) InvalidVertex.
Proof.
  split; [reflexivity|]. split; [reflexivity|].
  intros (msg & H & Hkind). injection H as <-. discriminate Hkind.
Qed.

(** C2, as amended: [mutate] fails with the InvalidVertex error whenever the
    sequence argument is a list or tuple with an element outside [0,n), and
    with the InvalidArgument error whenever the argument is neither a valid
    index nor a list or tuple, which includes a scalar index outside [0,n);
    the seed is unchanged in both cases. *)
Theorem mutate_rejected (K : FieldOps) (self : ClusterSeed K) (sequence : pyval)
    (kd : error_kind) (b : bool) :
  rejected (_n self) sequence kd ->
  fst (mutate self sequence (FBool b)) = self /\
  fails_with (snd (mutate self sequence (FBool b))) kd.
Proof.
  assert (_n (if b then self else init_from_seed self None) = _n self) as Hn
    by (by destruct b).
  intros Hrej. unfold mutate. cbn [truth]. rewrite Hn.
  destruct Hrej as [l v Hin Hv|l v Hin Hv|z Hz| |str].
  - cbn [in_range]. unfold mutate_list. cbn [type_is_bool negb]. rewrite Hn.
    destruct (filter_first (fun v => negb (in_range (_n self) v)) l v Hin)
      as (v' & rest & -> & _); [by rewrite Hv|].
    split; [done|]. by eexists.
  - cbn [in_range]. unfold mutate_list. cbn [type_is_bool negb]. rewrite Hn.
    destruct (filter_first (fun v => negb (in_range (_n self) v)) l v Hin)
      as (v' & rest & -> & _); [by rewrite Hv|].
    split; [done|]. by eexists.
  - rewrite Hz. split; [done|]. by eexists.
  - split; [done|]. by eexists.
  - split; [done|]. by eexists.
Qed.

Lemma mutate_rejected_A4 :
  (fst (mutate A4_seed (PList [PInt 0; PInt 9]) (FBool true)) = A4_seed /\
   fails_with (snd (mutate A4_seed (PList [PInt 0; PInt 9]) (FBool true))) InvalidVertex) /\
  (fst (mutate A4_seed (PInt 7) (FBool true)) = A4_seed /\
   fails_with (snd (mutate A4_seed (PInt 7) (FBool true))) InvalidArgument).
Proof.
  split.
  - apply (mutate_rejected RatFun.field A4_seed (PList [PInt 0; PInt 9]) InvalidVertex true).
    apply (rejected_list _ _ (PInt 9)); [simpl; tauto|reflexivity].
  - apply (mutate_rejected RatFun.field A4_seed (PInt 7) InvalidArgument true).
    apply rejected_int. reflexivity.
Defined.




(** C7: the seed of type A and rank 4, whose exchange matrix is
    [[0,1,0,0],[-1,0,-1,0],[0,1,0,1],[0,0,-1,0]], has after one mutation at
    vertex 0 the exchange matrix
    [[0,-1,0,0],[1,0,-1,0],[0,1,0,1],[0,0,-1,0]]. *)
Theorem A4_mutate_at_0 :
  _M A4_seed = [[0; 1; 0; 0]; [-1; 0; -1; 0]; [0; 1; 0; 1]; [0; 0; -1; 0]]%Z /\
  exists s',
    mutate A4_seed (PInt 0) (FBool true) = (s', Return None) /\
    _M s' = [[0; -1; 0; 0]; [1; 0; -1; 0]; [0; 1; 0; 1]; [0; 0; -1; 0]]%Z.
Proof.
  split; [reflexivity|]. eexists. split; [evaluate; reflexivity|reflexivity].
Qed.

(** C4: for the seed of type A and rank 3 with principal coefficients, built
    by [principal_extension], after the in-place mutation at the sequence
    [2,1,2], [f_polynomial(0)] returns 1, [f_polynomial(1)] returns
    y1*y2 + y2 + 1 and [f_polynomial(2)] returns y1 + 1, as reduced fractions
    with denominator 1 (the generators y1 and y2 are the generators 4 and 5
    of the field); the three polynomials are also given term by term. *)
Theorem A3_f_polynomials :
  let y1 := RatFun.pvar 4 in
  let y2 := RatFun.pvar 5 in
  let one := RatFun.pconst 1 in
  exists S S',
    principal_extension A3_seed false = Return S /\
    gens RatFun.field (_n S) (_m S) !! 4 = Some (RatFun.of_poly y1) /\
    gens RatFun.field (_n S) (_m S) !! 5 = Some (RatFun.of_poly y2) /\
    mutate S (PList [PInt 2; PInt 1; PInt 2]) (FBool true) = (S', Return None) /\
    f_polynomial S' 0 false = Return (RatFun.of_poly one) /\
    f_polynomial S' 1 false
      = Return (RatFun.of_poly (RatFun.padd (RatFun.padd (RatFun.pmul y1 y2) y2) one)) /\
    f_polynomial S' 2 false = Return (RatFun.of_poly (RatFun.padd y1 one)) /\
    one = [([], 1%Z)] /\
    RatFun.padd (RatFun.padd (RatFun.pmul y1 y2) y2) one
      = [([0; 0; 0; 0; 1; 1], 1%Z); ([0; 0; 0; 0; 0; 1], 1%Z); ([], 1%Z)] /\
    RatFun.padd y1 one = [([0; 0; 0; 0; 1], 1%Z); ([], 1%Z)].
Proof.
  do 2 eexists.
  split; [evaluate; reflexivity|].
  split; [reflexivity|]. split; [reflexivity|].
  split; [evaluate; reflexivity|].
  split; [evaluate; reflexivity|]. split; [evaluate; reflexivity|].
  split; [evaluate; reflexivity|]. by repeat split.
Qed.

(** ** Principal coefficients *)

Lemma lookup_map {A B} (f : A -> B) (l : list A) (i : nat) :
  map f l !! i = f <$> l !! i.
Proof. revert i. induction l as [|a l IH]; intros [|i]; simpl; auto. Qed.

Lemma length_identity_matrix n : length (identity_matrix n) = n.
Proof. unfold identity_matrix. by rewrite length_map, length_seq. Qed.

Lemma identity_matrix_rows n :
  Forall (fun row => length row = n) (identity_matrix n).
Proof.
  apply Forall_lookup. intros i row. unfold identity_matrix.
  rewrite lookup_map. destruct (seq 0 n !! i); [|done].
  intros [= <-]. by rewrite length_map, length_seq.
Qed.

Lemma entry_identity n i j :
  i < n -> j < n ->
  entry (identity_matrix n) i j = if decide (i = j) then 1%Z else 0%Z.
Proof.
  intros Hi Hj. unfold entry, identity_matrix.
  rewrite lookup_map, (lookup_seq_lt 0 n i Hi). simpl.
  by rewrite lookup_map, (lookup_seq_lt 0 n j Hj).
Qed.

Lemma entry_stack_below (M N : matrix) i j :
  entry (stack M N) (length M + i) j = entry N i j.
Proof.
  unfold entry, stack. rewrite lookup_app_r by lia.
  by replace (length M + i - length M) with i by lia.
Qed.

Section Principal.

Context {R : FractionField}.
Implicit Types (self S T : ClusterSeed R).

(** The stacked matrix has as many columns as the seed has exchangeable
    variables. *)
Lemma ncols_stack self :
  well_shaped self ->
  ncols (stack (_M self) (identity_matrix (_n self))) = _n self.
Proof.
  intros (Hlen & Hrows & _). unfold stack.
  destruct (_M self) as [|row M'] eqn:HM.
  - simpl in Hlen. assert (_n self = 0) as -> by lia. done.
  - simpl. by inversion Hrows.
Qed.

Lemma principal_extension_returns self ignore_coefficients :
  (ignore_coefficients = true \/ _m self = 0) ->
  principal_extension self ignore_coefficients
  = Return (with_mutation_type
              (init (DataMatrix (stack (_M self) (identity_matrix (_n self))))
                    (Some (_m self =? 0)))
              (_mutation_type self)).
Proof.
  intros H. unfold principal_extension.
  destruct H as [-> | ->]; [done|]. cbn [Nat.eqb negb]. by rewrite andb_false_r.
Qed.

Lemma mutate_list_clone self seed l S' T :
  mutate_list self seed (FBool false) l = (S', Return (Some T)) ->
  _is_principal T = _is_principal seed /\ _n T = _n seed.
Proof.
  unfold mutate_list. cbn [type_is_bool negb truth]. intros H.
  destruct (List.filter _ l); [|discriminate].
  destruct (mutate_loop seed (map index_of l)) as [seed' [e|]] eqn:Hloop; [discriminate|].
  injection H as _ <-.
  by destruct (mutate_loop_fields _ _ _ _ Hloop) as (Hn & _ & Hp).
Qed.

(** The clone that [mutate] returns has no flag. *)
Lemma mutate_clone self sequence S' T :
  mutate self sequence (FBool false) = (S', Return (Some T)) ->
  _is_principal T = None /\ _n T = _n self.
Proof.
  unfold mutate. cbn [truth]. intros H.
  destruct (in_range _ sequence).
  - by apply mutate_list_clone in H.
  - destruct sequence; cbv beta iota zeta in H; try discriminate;
      by apply mutate_list_clone in H.
Qed.

Lemma mutation_sequence_loop_clones sequence seed seeds vars T :
  mutation_sequence_loop seed sequence = Return (seeds, vars) ->
  In T seeds -> _is_principal T = None /\ _n T = _n seed.
Proof.
  revert seed seeds vars.
  induction sequence as [|v sequence IH]; intros seed seeds vars H Hin; simpl in H.
  - injection H as <- <-. destruct Hin.
  - destruct (mutate seed v (FBool false)) as [S' [[T'|]|e]] eqn:Hm; try discriminate.
    destruct (mutate_clone _ _ _ _ Hm) as [Hp Hn].
    destruct v; try discriminate.
    destruct (mutation_sequence_loop T' sequence) as [[seeds' vars']|e] eqn:Hl;
      [|discriminate].
    injection H as <- <-. destruct Hin as [<- |Hin]; [done|].
    destruct (IH _ _ _ Hl Hin) as [HpT HnT]. split; [done|congruence].
Qed.

Lemma copy_of_fields S T :
  copy_of S T -> _is_principal T = None /\ _n T = _n S.
Proof.
  intros [-> |[(sequence & S' & Hm)|(sequence & l & Hs & Hin)]].
  - done.
  - by apply mutate_clone in Hm.
  - unfold mutation_sequence in Hs.
    destruct (mutation_sequence_loop _ sequence) as [[seeds vars]|e] eqn:Hl;
      [|discriminate].
    injection Hs as <-. by apply (mutation_sequence_loop_clones _ _ _ _ _ Hl) in Hin.
Qed.

End Principal.

(** C5: for every seed whose principal-coefficients flag is not set, the
    calls [f_polynomial(k)], [g_vector(k)] and [c_vector(k)] with a valid
    index k and without the override flag raise the error 'No principal
    coefficients initialized', of kind PreconditionUnmet. The three methods
    contain no assignment to the seed, so they are functions of its state
    and leave it as it is. *)
Theorem no_principal_coefficients (R : FractionField) (self : ClusterSeed R) (k : Z) :
  is_principal_set self = false ->
  in_range (_n self) (PInt k) = true ->
  f_polynomial self k false = Raise (ValueError msg_no_principal_coefficients) /\
  g_vector self k false = Raise (ValueError msg_no_principal_coefficients) /\
  c_vector self k false = Raise (ValueError msg_no_principal_coefficients) /\
  kind_of msg_no_principal_coefficients = PreconditionUnmet.
Proof.
  intros Hp Hk. unfold f_polynomial, g_vector, c_vector. by rewrite Hp, Hk.
Qed.

Lemma no_principal_coefficients_A3 :
  f_polynomial A3_seed 1 false = Raise (ValueError msg_no_principal_coefficients) /\
  g_vector A3_seed 1 false = Raise (ValueError msg_no_principal_coefficients) /\
  c_vector A3_seed 1 false = Raise (ValueError msg_no_principal_coefficients) /\
  kind_of msg_no_principal_coefficients = PreconditionUnmet.
Proof.
  apply (no_principal_coefficients RatFun.field A3_seed 1); reflexivity.
Defined.

(** C6: for every seed with n exchangeable and m = 0 frozen variables,
    [principal_extension] returns a seed whose exchange matrix is
    (n+n) x n, with top block the original matrix and bottom n x n block the
    identity, and whose [is_principal] flag is true; for a seed with m <> 0
    and no override flag it raises the error 'The b-matrix is not square', of
    kind PreconditionUnmet. *)
Theorem principal_extension_square (R : FractionField) (self : ClusterSeed R) :
  well_shaped self ->
  (_m self = 0 ->
   exists T,
     principal_extension self false = Return T /\
     _n T = _n self /\ _m T = _n self /\
     length (_M T) = _n self + _n self /\
     Forall (fun row => length row = _n self) (_M T) /\
     take (_n self) (_M T) = _M self /\
     drop (_n self) (_M T) = identity_matrix (_n self) /\
     (forall i j, i < _n self -> j < _n self ->
        entry (_M T) (_n self + i) j = if decide (i = j) then 1%Z else 0%Z) /\
     _is_principal T = Some true) /\
  (_m self <> 0 ->
   principal_extension self false = Raise (ValueError msg_not_square) /\
   kind_of msg_not_square = PreconditionUnmet).
Proof.
  intros Hshape. pose proof Hshape as (Hlen & Hrows & _). split.
  - intros Hm. rewrite Hm, Nat.add_0_r in Hlen.
    eexists. split; [apply principal_extension_returns; by right|].
    cbn [with_mutation_type init init_from_matrix init_from_quiver with_is_principal
         ClusterQuiver_of_matrix _n _m _M _is_principal q_M q_n q_m].
    rewrite (ncols_stack self Hshape), Hm. unfold nrows.
    assert (length (stack (_M self) (identity_matrix (_n self))) = _n self + _n self)
      as Hrows' by (unfold stack; by rewrite length_app, length_identity_matrix, Hlen).
    rewrite Hrows'.
    split; [done|]. split; [lia|]. split; [done|].
    split; [apply Forall_app; split; [done|apply identity_matrix_rows]|].
    split; [by apply take_app_length'|]. split; [by apply drop_app_length'|].
    split; [|done]. intros i j Hi Hj.
    replace (_n self + i) with (length (_M self) + i) by lia.
    rewrite (entry_stack_below (_M self)).
    by apply entry_identity.
  - intros Hm. split; [|done]. unfold principal_extension.
    by destruct (_m self).
Qed.

Lemma principal_extension_square_A3 :
  (exists T,
     principal_extension A3_seed false = Return T /\
     _n T = 3 /\ _m T = 3 /\ length (_M T) = 6 /\
     Forall (fun row => length row = 3) (_M T) /\
     take 3 (_M T) = A3_matrix /\ drop 3 (_M T) = identity_matrix 3 /\
     (forall i j, i < 3 -> j < 3 ->
        entry (_M T) (3 + i) j = if decide (i = j) then 1%Z else 0%Z) /\
     _is_principal T = Some true) /\
  principal_extension A3_principal false = Raise (ValueError msg_not_square).
Proof.
  split.
  - apply (principal_extension_square RatFun.field A3_seed); [|reflexivity].
    split; [reflexivity|]. split; [|reflexivity]. repeat constructor.
  - apply (principal_extension_square RatFun.field A3_principal).
    + split; [reflexivity|]. split; [|reflexivity]. repeat constructor.
    + simpl. lia.
Defined.

(** C9, as stated, fails on the seed built with [is_principal=True] from the
    matrix [[0],[1],[1]]: its flag is true and 0 is a valid index, but
    [f_polynomial(0)] and [g_vector(0)] do not succeed on it, they raise
    'The number of cluster variables and of frozen variables do not
    coincide.', an error of the same kind as the one its copy raises. *)
Lemma principal_flag_rectangular_seed :
  wf_seed rectangular_seed /\
  is_principal_set rectangular_seed = true /\
  in_range (_n rectangular_seed) (PInt 0) = true /\
  copy_of rectangular_seed (init (DataSeed rectangular_seed) None) /\
  f_polynomial rectangular_seed 0 false = Raise (ValueError msg_f_polynomial_n_m) /\
  g_vector rectangular_seed 0 false = Raise (ValueError msg_g_vector_n_m) /\
  fails_with (f_polynomial rectangular_seed 0 false) PreconditionUnmet /\
  fails_with (g_vector rectangular_seed 0 false) PreconditionUnmet /\
  fails_with (f_polynomial (init (DataSeed rectangular_seed) None) 0 false)
             PreconditionUnmet.
Proof.
  split.
  { split; [split; [reflexivity|split; [repeat constructor|reflexivity]]|].
    exists (fun _ => 1%Z). split; [done|].
    intros i j Hi Hj. assert (i = 0) as -> by (simpl in Hi; lia).
    assert (j = 0) as -> by (simpl in Hj; lia). reflexivity. }
  split; [reflexivity|]. split; [reflexivity|]. split; [by left|].
  split; [reflexivity|]. split; [reflexivity|].
  split; [by eexists|]. split; by eexists.
Qed.

(** C9, as amended: copying a seed never preserves the principal-coefficients
    flag. For every seed S whose flag is true and every seed T obtained from
    S by copy construction ([ClusterSeed(S)], the clone made by [mutate] with
    [inplace=False], a clone made by [mutation_sequence]), the flag of T is
    unset, so [f_polynomial], [g_vector] and [c_vector] at a valid index and
    without the override flag raise 'No principal coefficients initialized'
    (PreconditionUnmet) on T. On S, [c_vector] returns; [f_polynomial] and
    [g_vector] never raise that error, and they return when S has as many
    frozen as exchangeable variables and the substitution has a value (then
    [f_polynomial] returns that value, [g_vector] the differences of its
    degrees); when the two numbers differ they raise their own
    PreconditionUnmet error. *)
Theorem copy_drops_principal_flag (R : FractionField) (S T : ClusterSeed R) (k : Z) :
  is_principal_set S = true ->
  copy_of S T ->
  in_range (_n S) (PInt k) = true ->
  let xk := cluster_at (_cluster S) (Z.to_nat k) in
  let ones := map (fun i => (i, 1%Z)) (seq 0 (_n S)) in
  let zeros := map (fun i => (_n S + i, 0%Z)) (seq 0 (_m S)) in
  _is_principal T = None /\
  f_polynomial T k false = Raise (ValueError msg_no_principal_coefficients) /\
  g_vector T k false = Raise (ValueError msg_no_principal_coefficients) /\
  c_vector T k false = Raise (ValueError msg_no_principal_coefficients) /\
  kind_of msg_no_principal_coefficients = PreconditionUnmet /\
  f_polynomial S k false <> Raise (ValueError msg_no_principal_coefficients) /\
  g_vector S k false <> Raise (ValueError msg_no_principal_coefficients) /\
  c_vector S k false
    = Return (map (fun i => entry (_M S) i (Z.to_nat k)) (seq (_n S) (_m S))) /\
  (_m S = _n S ->
     (forall v, subs R ones xk = Some v -> f_polynomial S k false = Return v) /\
     (forall v, subs R zeros xk = Some v ->
        g_vector S k false
        = Return (map (fun i =>
                         (default 0 (numerator_degrees R (_n S + _m S) v !! i)
                          - default 0 (denominator_degrees R (_n S + _m S) v !! i))%Z)
                      (seq 0 (_n S))))) /\
  (_m S <> _n S ->
     f_polynomial S k false = Raise (ValueError msg_f_polynomial_n_m) /\
     g_vector S k false = Raise (ValueError msg_g_vector_n_m) /\
     fails_with (f_polynomial S k false) PreconditionUnmet /\
     fails_with (g_vector S k false) PreconditionUnmet).
Proof.
  intros Hflag Hcopy Hk xk ones zeros.
  destruct (copy_of_fields S T Hcopy) as [Hp Hn].
  assert (is_principal_set T = false) as HT by (unfold is_principal_set; by rewrite Hp).
  split; [done|].
  split; [unfold f_polynomial; by rewrite HT|].
  split; [unfold g_vector; by rewrite HT|].
  split; [unfold c_vector; by rewrite Hn, Hk, HT|].
  split; [done|].
  split; [|split; [|split; [|split]]].
  - unfold f_polynomial, cluster_variable, cv_subs. rewrite Hflag, Hk. cbn [orb negb].
    destruct (negb (_m S =? _n S)); [done|]. by destruct (subs R _ _).
  - unfold g_vector, cluster_variable, cv_subs. rewrite Hflag, Hk. cbn [orb negb].
    destruct (negb (_m S =? _n S)); [done|]. by destruct (subs R _ _).
  - unfold c_vector. by rewrite Hflag, Hk.
  - intros Hm. split; intros v Hv.
    + unfold f_polynomial, cluster_variable, cv_subs. rewrite Hflag, Hk. cbn [orb negb].
      rewrite Hm, Nat.eqb_refl. cbn [negb cv_value].
      unfold xk, ones in Hv. by rewrite Hv.
    + unfold g_vector, cluster_variable, cv_subs. rewrite Hflag, Hk. cbn [orb negb].
      rewrite Hm, Nat.eqb_refl. cbn [negb cv_value].
      unfold xk, zeros in Hv. rewrite Hm in Hv. by rewrite Hv.
  - intros Hm. apply Nat.eqb_neq in Hm.
    assert (f_polynomial S k false = Raise (ValueError msg_f_polynomial_n_m)) as Hf
      by (unfold f_polynomial; rewrite Hflag; cbn [orb negb]; by rewrite Hm).
    assert (g_vector S k false = Raise (ValueError msg_g_vector_n_m)) as Hg
      by (unfold g_vector; rewrite Hflag; cbn [orb negb]; by rewrite Hm).
    split; [done|]. split; [done|]. split; by eexists.
Qed.

Lemma copy_drops_principal_flag_A3 :
  let S := A3_principal in
  let T := init (DataSeed A3_principal) None in
  let xk := cluster_at (_cluster S) (Z.to_nat 1) in
  let ones := map (fun i => (i, 1%Z)) (seq 0 (_n S)) in
  let zeros := map (fun i => (_n S + i, 0%Z)) (seq 0 (_m S)) in
  (f_polynomial S 1 false = Return (RatFun.rconst 1) /\
   g_vector S 1 false = Return [0; 1; 0]%Z /\
   c_vector S 1 false = Return [0; 1; 0]%Z) /\
  _is_principal T = None /\
  f_polynomial T 1 false = Raise (ValueError msg_no_principal_coefficients) /\
  g_vector T 1 false = Raise (ValueError msg_no_principal_coefficients) /\
  c_vector T 1 false = Raise (ValueError msg_no_principal_coefficients) /\
  kind_of msg_no_principal_coefficients = PreconditionUnmet /\
  f_polynomial S 1 false <> Raise (ValueError msg_no_principal_coefficients) /\
  g_vector S 1 false <> Raise (ValueError msg_no_principal_coefficients) /\
  c_vector S 1 false
    = Return (map (fun i => entry (_M S) i (Z.to_nat 1)) (seq (_n S) (_m S))) /\
  (_m S = _n S ->
     (forall v, subs RatFun.field ones xk = Some v -> f_polynomial S 1 false = Return v) /\
     (forall v, subs RatFun.field zeros xk = Some v ->
        g_vector S 1 false
        = Return (map (fun i =>
                         (default 0 (numerator_degrees RatFun.field (_n S + _m S) v !! i)
                          - default 0 (denominator_degrees RatFun.field (_n S + _m S) v !! i))%Z)
                      (seq 0 (_n S))))) /\
  (_m S <> _n S ->
     f_polynomial S 1 false = Raise (ValueError msg_f_polynomial_n_m) /\
     g_vector S 1 false = Raise (ValueError msg_g_vector_n_m) /\
     fails_with (f_polynomial S 1 false) PreconditionUnmet /\
     fails_with (g_vector S 1 false) PreconditionUnmet).
Proof.
  intros S T xk ones zeros. split.
  - split; [evaluate; reflexivity|].
    split; [evaluate; reflexivity|evaluate; reflexivity].
  - apply (copy_drops_principal_flag RatFun.field A3_principal T 1).
    + reflexivity.
    + left. reflexivity.
    + reflexivity.
Defined.

(** C10: for every seed, the seed returned by [principal_extension] has the
    stacked matrix (the caller's current exchange matrix on top, the identity
    matrix of size n below), the caller's n exchangeable and m + n frozen
    variables, and as its cluster the initial generators of the field with
    n and m + n generators, one per row of the stacked matrix. It does not
    depend on the caller's cluster, so the cluster variables produced by
    earlier mutations of the caller are discarded. *)
Theorem principal_extension_cluster (R : FractionField) (self T : ClusterSeed R)
    (ignore_coefficients : bool) :
  well_shaped self ->
  principal_extension self ignore_coefficients = Return T ->
  _M T = stack (_M self) (identity_matrix (_n self)) /\
  _n T = _n self /\ _m T = _m self + _n self /\
  _R T = (_n self, _m self + _n self) /\
  _cluster T = gens R (_n self) (_m self + _n self) /\
  _cluster T = gens R (_n T) (_m T) /\
  length (_M T) = _n T + _m T /\
  (GeneratorLaws R -> length (_cluster T) = length (_M T)) /\
  take (length (_M self)) (_M T) = _M self /\
  drop (length (_M self)) (_M T) = identity_matrix (_n self) /\
  _is_principal T = Some (_m self =? 0) /\
  (forall cluster,
     principal_extension (with_cluster self cluster) ignore_coefficients = Return T).
Proof.
  intros Hshape H.
  assert (forall cluster,
            principal_extension (with_cluster self cluster) ignore_coefficients = Return T)
    as Hany by (intros cluster; by rewrite <- H).
  unfold principal_extension in H.
  destruct (negb ignore_coefficients && negb (_m self =? 0)); [discriminate|].
  injection H as <-.
  cbn [with_mutation_type init init_from_matrix init_from_quiver with_is_principal
       ClusterQuiver_of_matrix _n _m _M _cluster _R _is_principal q_M q_n q_m].
  rewrite (ncols_stack self Hshape).
  assert (nrows (stack (_M self) (identity_matrix (_n self))) - _n self
          = _m self + _n self) as Hm.
  { unfold nrows, stack. rewrite length_app, length_identity_matrix.
    destruct Hshape as (-> & _). lia. }
  assert (length (stack (_M self) (identity_matrix (_n self)))
          = _n self + (_m self + _n self)) as Hlen.
  { unfold stack. rewrite length_app, length_identity_matrix.
    destruct Hshape as (-> & _). lia. }
  rewrite Hm.
  split; [done|]. split; [done|]. split; [done|]. split; [done|].
  split; [done|]. split; [done|]. split; [done|].
  split; [intros HG; by rewrite (gens_length HG)|].
  split; [apply take_app_length|]. split; [apply drop_app_length|]. done.
Qed.

Lemma principal_extension_cluster_A3 :
  exists T,
    principal_extension A3_mutated false = Return T /\
    _cluster A3_mutated <> gens RatFun.field 3 0 /\
    _cluster T = map RatFun.rvar [0; 1; 2; 3; 4; 5] /\
    length (_M T) = 6 /\
    _M T = stack (_M A3_mutated) (identity_matrix (_n A3_mutated)) /\
    _n T = _n A3_mutated /\ _m T = _m A3_mutated + _n A3_mutated /\
    _R T = (_n A3_mutated, _m A3_mutated + _n A3_mutated) /\
    _cluster T = gens RatFun.field (_n A3_mutated) (_m A3_mutated + _n A3_mutated) /\
    _cluster T = gens RatFun.field (_n T) (_m T) /\
    length (_M T) = _n T + _m T /\
    (GeneratorLaws RatFun.field -> length (_cluster T) = length (_M T)) /\
    take (length (_M A3_mutated)) (_M T) = _M A3_mutated /\
    drop (length (_M A3_mutated)) (_M T) = identity_matrix (_n A3_mutated) /\
    _is_principal T = Some (_m A3_mutated =? 0) /\
    (forall cluster,
       principal_extension (with_cluster A3_mutated cluster) false = Return T).
Proof.
  eexists. split; [evaluate; reflexivity|].
  split; [evaluate; discriminate|].
  split; [reflexivity|]. split; [reflexivity|].
  apply (principal_extension_cluster RatFun.field A3_mutated _ false).
  - split; [reflexivity|]. split; [|reflexivity]. repeat constructor.
  - evaluate. reflexivity.
Defined.

(** * Further properties *)

(** ** The class invariant is kept by mutation *)

Lemma exchange_term_skew (di dj dk a b a' b' : Z) :
  (0 < di)%Z -> (0 < dj)%Z -> (0 < dk)%Z ->
  (di * a = - (dk * a'))%Z -> (dk * b = - (dj * b'))%Z ->
  (di * (Z.sgn a * Z.max 0 (a * b)) = - (dj * (Z.sgn b' * Z.max 0 (b' * a'))))%Z.
Proof.
  intros Hi Hj Hk H1 H2.
  assert (dk * (di * (a * b)) = dk * (dj * (b' * a')))%Z as Hprod.
  { transitivity ((di * a) * (dk * b))%Z; [ring|]. rewrite H1, H2. ring. }
  apply Z.mul_reg_l in Hprod; [|lia].
  destruct (Z.lt_trichotomy a 0) as [Ha|[->|Ha]];
    destruct (Z.lt_trichotomy b 0) as [Hb|[->|Hb]].
  - assert (0 < a')%Z by nia. assert (0 < b')%Z by nia.
    rewrite (Z.sgn_neg a), (Z.sgn_pos b') by done.
    rewrite !Z.max_r by nia. lia.
  - assert (b' = 0)%Z as -> by nia. rewrite Z.mul_0_r. simpl. lia.
  - assert (0 < a')%Z by nia. assert (b' < 0)%Z by nia.
    rewrite !Z.max_l by nia. lia.
  - assert (a' = 0)%Z as -> by nia. rewrite Z.mul_0_r. simpl. lia.
  - assert (a' = 0)%Z as -> by nia. rewrite Z.mul_0_r. simpl. lia.
  - assert (a' = 0)%Z as -> by nia. rewrite Z.mul_0_r. simpl. lia.
  - assert (a' < 0)%Z by nia. assert (0 < b')%Z by nia.
    rewrite !Z.max_l by nia. lia.
  - assert (b' = 0)%Z as -> by nia. rewrite Z.mul_0_r. simpl. lia.
  - assert (a' < 0)%Z by nia. assert (b' < 0)%Z by nia.
    rewrite (Z.sgn_pos a), (Z.sgn_neg b') by done.
    rewrite !Z.max_r by nia. lia.
Qed.

Lemma length_matrix_mutate (M : matrix) k : length (matrix_mutate M k) = length M.
Proof. unfold matrix_mutate. by rewrite length_imap. Qed.

Lemma matrix_mutate_rows n (M : matrix) k :
  Forall (fun row => length row = n) M ->
  Forall (fun row => length row = n) (matrix_mutate M k).
Proof.
  rewrite !Forall_lookup. intros Hrows i row. rewrite lookup_matrix_mutate.
  destruct (M !! i) as [row0|] eqn:Hi; [|done].
  intros [= <-]. rewrite length_imap. by apply (Hrows i).
Qed.

Lemma lookup_in_shape n (M : matrix) i j :
  i < length M -> j < n -> Forall (fun row => length row = n) M ->
  exists row a, M !! i = Some row /\ row !! j = Some a.
Proof.
  intros Hi Hj Hrows.
  destruct (lookup_lt_is_Some_2 M i Hi) as [row Hrow].
  pose proof (proj1 (Forall_lookup _ _) Hrows i row Hrow) as Hlen.
  simpl in Hlen.
  destruct (lookup_lt_is_Some_2 row j) as [a Ha]; [lia|]. by exists row, a.
Qed.

(** Matrix mutation at an exchangeable vertex keeps the exchange block
    skew-symmetrizable, with the same rescaling. *)
Lemma skew_symmetrizable_mutate n (M : matrix) k :
  n <= length M -> Forall (fun row => length row = n) M -> k < n ->
  skew_symmetrizable n M -> skew_symmetrizable n (matrix_mutate M k).
Proof.
  intros Hlen Hrows Hk (d & Hd & Hskew). exists d. split; [done|].
  intros i j Hi Hj. rewrite !entry_matrix_mutate.
  destruct (lookup_in_shape n M i j) as (ri & a & Hri & Ha); [lia|done|done|].
  destruct (lookup_in_shape n M j i) as (rj & a' & Hrj & Ha'); [lia|done|done|].
  rewrite Hri, Ha, Hrj, Ha'.
  pose proof (Hskew i j Hi Hj) as Hij.
  rewrite (entry_lookup _ _ _ _ _ Hri Ha), (entry_lookup _ _ _ _ _ Hrj Ha') in Hij.
  unfold mutated_entry.
  destruct (decide (i = k \/ j = k)) as [Hor|Hnor].
  - rewrite !bool_decide_eq_true_2 by tauto. lia.
  - rewrite !bool_decide_eq_false_2 by tauto.
    pose proof (exchange_term_skew (d i) (d j) (d k) (entry M i k) (entry M k j)
                  (entry M k i) (entry M j k) (Hd i Hi) (Hd j Hj) (Hd k Hk)
                  (Hskew i k Hi Hk) (Hskew k j Hk Hj)) as Hterm.
    lia.
Qed.

Section Invariant.

Context {K : FieldOps}.
Implicit Types (s self seed : ClusterSeed K).

Lemma mutated_wf s k : wf_seed s -> k < _n s -> wf_seed (mutated s k).
Proof.
  intros [(Hlen & Hrows & Hcl) Hskew] Hk. split; [split; [|split]|];
    cbn [mutated with_M with_cluster _M _cluster _n _m].
  - by rewrite length_matrix_mutate.
  - by apply matrix_mutate_rows.
  - by rewrite length_insert.
  - apply skew_symmetrizable_mutate; [lia|done|done|done].
Qed.

Lemma mutate_loop_wf seed ks seed' r :
  wf_seed seed -> (forall k, In k ks -> k < _n seed) ->
  mutate_loop seed ks = (seed', r) -> wf_seed seed'.
Proof.
  revert seed. induction ks as [|k ks IH]; intros seed Hwf Hks H; simpl in H.
  - by injection H as <- <-.
  - rewrite mutate_step_unfold in H.
    destruct (feqb K (cluster_at (_cluster seed) k) (fzero K)).
    + by injection H as <- <-.
    + apply (IH (mutated seed k)); [|intros k' Hk'|done].
      * apply mutated_wf; [done|]. apply Hks. by left.
      * apply (Hks k'). by right.
Qed.

Lemma mutate_list_wf self seed inplace l s' r :
  wf_seed self -> wf_seed seed ->
  mutate_list self seed inplace l = (s', r) ->
  wf_seed s' /\ (forall T, r = Return (Some T) -> wf_seed T).
Proof.
  intros Hself Hseed. unfold mutate_list. intros H.
  destruct (negb (type_is_bool inplace)); [by injection H as <- <-|].
  destruct (List.filter _ l) as [|v rest] eqn:Hf; [|by injection H as <- <-].
  destruct (mutate_loop seed (map index_of l)) as [seed' o] eqn:Hloop.
  assert (wf_seed seed') as Hwf'.
  { apply (mutate_loop_wf _ _ _ _ Hseed) in Hloop; [done|].
    intros k (v & <- & Hv)%in_map_iff. apply in_range_index.
    pose proof (filter_none _ _ _ Hf Hv) as Hr. by apply negb_false_iff in Hr. }
  destruct o as [e|]; destruct (truth inplace); injection H as <- <-;
    (split; [done|]); intros T [=]; by subst.
Qed.

End Invariant.

(** X1: every call of [mutate], whatever it returns or raises, leaves a seed
    that satisfies the class invariant (matrix of n+m rows and n columns,
    n+m cluster variables, skew-symmetrizable exchange block) in a state
    that satisfies it, and so does the clone it returns. *)
Theorem mutate_keeps_invariant (K : FieldOps) (self : ClusterSeed K)
    (sequence : pyval) (inplace : pyflag) (s' : ClusterSeed K)
    (r : result (option (ClusterSeed K))) :
  wf_seed self ->
  mutate self sequence inplace = (s', r) ->
  wf_seed s' /\ (forall T, r = Return (Some T) -> wf_seed T).
Proof.
  intros Hwf. unfold mutate.
  assert (wf_seed (if truth inplace then self else init_from_seed self None)) as Hseed
    by (by destruct (truth inplace)).
  intros H. destruct (in_range _ sequence).
  - by apply (mutate_list_wf _ _ _ _ _ _ Hwf Hseed) in H.
  - destruct sequence; cbv beta iota zeta in H;
      try (injection H as <- <-; split; [done|]; intros T [=]);
      by apply (mutate_list_wf _ _ _ _ _ _ Hwf Hseed) in H.
Qed.

(** ** What mutation leaves alone *)

Section Untouched.

Context {K : FieldOps}.
Implicit Types (s self seed : ClusterSeed K).

(** The fields of a seed other than matrix, cluster and cached quiver. *)
Lemma mutate_loop_other_fields seed ks seed' o :
  mutate_loop seed ks = (seed', o) ->
  _n seed' = _n seed /\ _m seed' = _m seed /\ _R seed' = _R seed /\
  _is_principal seed' = _is_principal seed /\
  _mutation_type seed' = _mutation_type seed /\
  _description seed' = _description seed.
Proof.
  revert seed. induction ks as [|k ks IH]; intros seed H; simpl in H.
  - by injection H as <- <-.
  - rewrite mutate_step_unfold in H.
    destruct (feqb K (cluster_at (_cluster seed) k) (fzero K)).
    + by injection H as <- <-.
    + by destruct (IH _ H) as (-> & -> & -> & -> & -> & ->).
Qed.

Lemma mutate_list_other_fields self inplace l s' r :
  mutate_list self (if truth inplace then self else init_from_seed self None) inplace l
    = (s', r) ->
  _n s' = _n self /\ _m s' = _m self /\ _R s' = _R self /\
  _is_principal s' = _is_principal self /\
  _mutation_type s' = _mutation_type self /\
  _description s' = _description self.
Proof.
  unfold mutate_list. intros H.
  destruct (negb (type_is_bool inplace)); [by injection H as <- <-|].
  destruct (List.filter _ l); [|by injection H as <- <-].
  destruct (mutate_loop _ (map index_of l)) as [seed' o] eqn:Hloop.
  apply mutate_loop_other_fields in Hloop.
  destruct (truth inplace); destruct o; by injection H as <- <-.
Qed.

Lemma mutate_loop_flag seed p ks :
  mutate_loop (with_is_principal seed p) ks
  = (with_is_principal (fst (mutate_loop seed ks)) p, snd (mutate_loop seed ks)).
Proof.
  revert seed. induction ks as [|k ks IH]; intros seed; [done|].
  simpl. rewrite !mutate_step_unfold. cbn [with_is_principal _cluster].
  destruct (feqb K (cluster_at (_cluster seed) k) (fzero K)); [done|].
  apply (IH (mutated seed k)).
Qed.

Lemma mutate_list_clone_agrees self l :
  mutate_list self (init_from_seed self None) (FBool false) l
  = (self,
     match snd (mutate_list self self (FBool true) l) with
     | Return _ =>
         Return (Some (with_is_principal (fst (mutate_list self self (FBool true) l)) None))
     | Raise e => Raise e
     end).
Proof.
  unfold mutate_list. cbn [type_is_bool negb truth init_from_seed _n].
  destruct (List.filter _ l); [|done].
  change (init_from_seed self None) with (with_is_principal self None).
  rewrite mutate_loop_flag.
  by destruct (mutate_loop self (map index_of l)) as [seed' [e|]].
Qed.

Lemma mutate_other_fields self sequence inplace s' r :
  mutate self sequence inplace = (s', r) ->
  _n s' = _n self /\ _m s' = _m self /\ _R s' = _R self /\
  _is_principal s' = _is_principal self /\
  _mutation_type s' = _mutation_type self /\
  _description s' = _description self.
Proof.
  unfold mutate. intros H. destruct (in_range _ sequence).
  - by apply mutate_list_other_fields in H.
  - destruct sequence; cbv beta iota zeta in H;
      try (by injection H as <- <-); by apply mutate_list_other_fields in H.
Qed.

End Untouched.

(** X2: a call of [mutate], whatever its outcome, changes nothing of the
    receiver but its matrix, its cluster and its cached quiver: the numbers
    of exchangeable and frozen variables, the field, the
    principal-coefficients flag, the mutation type and the description stay,
    and so do the initial variables [x(k)] and [y(k)]. *)
Theorem mutate_keeps_other_fields (R : FractionField) (self s' : ClusterSeed R)
    (sequence : pyval) (inplace : pyflag) (r : result (option (ClusterSeed R))) :
  mutate self sequence inplace = (s', r) ->
  _n s' = _n self /\ _m s' = _m self /\ _R s' = _R self /\
  _is_principal s' = _is_principal self /\
  _mutation_type s' = _mutation_type self /\
  _description s' = _description self /\
  (forall k, x s' k = x self k /\ y s' k = y self k).
Proof.
  intros H.
  destruct (mutate_other_fields _ _ _ _ _ H) as (Hn & Hm & HR & Hp & Ht & Hd).
  repeat (split; [done|]). intros k. unfold x, y. by rewrite Hn, Hm, HR.
Qed.

(** X3: [mutate] with [inplace=False] never changes the receiver, and what
    it returns is what the in-place call on the same arguments leaves in the
    receiver, except for the principal-coefficients flag, which the clone
    loses; it raises exactly the exception of the in-place call. *)
Theorem mutate_clone_agrees (K : FieldOps) (self : ClusterSeed K) (sequence : pyval) :
  mutate self sequence (FBool false)
  = (self,
     match snd (mutate self sequence (FBool true)) with
     | Return _ =>
         Return (Some (with_is_principal (fst (mutate self sequence (FBool true))) None))
     | Raise e => Raise e
     end).
Proof.
  unfold mutate. cbn [truth init_from_seed _n].
  destruct (in_range (_n self) sequence).
  - apply mutate_list_clone_agrees.
  - destruct sequence; cbv beta iota zeta; try done; apply mutate_list_clone_agrees.
Qed.

(** ** Resetting the principal coefficients *)

Lemma matrix_set_insert (M : matrix) r j v row :
  M !! r = Some row -> matrix_set M r j v = <[r := <[j := v]> row]> M.
Proof.
  intros Hr. unfold matrix_set. apply list_eq. intros i.
  destruct (decide (r = i)) as [<-|Hne].
  - rewrite list_lookup_alter_eq, Hr, list_lookup_insert_eq; [done|].
    by apply lookup_lt_Some in Hr.
  - by rewrite list_lookup_alter_ne, list_lookup_insert_ne.
Qed.

(** The inner loop rewrites one row. *)
Lemma row_loop_matrix (g : nat -> Z) (js : list nat) (M : matrix) r row :
  M !! r = Some row ->
  foldl (fun M j => matrix_set M r j (g j)) M js
  = <[r := foldl (fun row j => <[j := g j]> row) row js]> M.
Proof.
  revert M row. induction js as [|j js IH]; intros M row Hr; simpl.
  - by rewrite list_insert_id.
  - rewrite (matrix_set_insert _ _ _ _ _ Hr).
    rewrite (IH _ (<[j := g j]> row)).
    + by rewrite list_insert_insert_eq.
    + apply list_lookup_insert_eq. by apply lookup_lt_Some in Hr.
Qed.

Lemma length_foldl_insert {A} (g : nat -> A) (js : list nat) (l : list A) :
  length (foldl (fun l j => <[j := g j]> l) l js) = length l.
Proof.
  revert l. induction js as [|j js IH]; intros l; simpl; [done|].
  by rewrite IH, length_insert.
Qed.

Lemma lookup_foldl_insert {A} (g : nat -> A) (js : list nat) (l : list A) j0 :
  j0 < length l ->
  foldl (fun l j => <[j := g j]> l) l js !! j0
  = if decide (j0 ∈ js) then Some (g j0) else l !! j0.
Proof.
  revert l. induction js as [|j js IH]; intros l Hj0; cbn [foldl].
  - by rewrite decide_False by apply not_elem_of_nil.
  - rewrite IH by (by rewrite length_insert).
    destruct (decide (j0 ∈ js)) as [Hin|Hnin].
    + rewrite decide_True; [done|]. by apply elem_of_cons; right.
    + destruct (decide (j = j0)) as [->|Hne].
      * rewrite decide_True by (apply elem_of_cons; by left).
        by apply list_lookup_insert_eq.
      * rewrite decide_False by (intros [Heq|Hin]%elem_of_cons; [congruence|done]).
        by apply list_lookup_insert_ne.
Qed.

(** Assigning g(j) to every position j < n of a row of length n. *)
Lemma row_loop (g : nat -> Z) (row : list Z) n :
  length row = n ->
  foldl (fun row j => <[j := g j]> row) row (seq 0 n) = map g (seq 0 n).
Proof.
  intros Hlen. apply list_eq. intros j. rewrite lookup_map.
  destruct (decide (j < n)) as [Hj|Hj].
  - rewrite lookup_foldl_insert by lia.
    rewrite decide_True by (apply elem_of_seq; lia).
    by rewrite (lookup_seq_lt 0 n j Hj).
  - rewrite lookup_ge_None_2 by (rewrite length_foldl_insert; lia).
    by rewrite lookup_seq_ge by lia.
Qed.

(** The outer loop over a list of row numbers: the rows n+i for the i's of
    the list become identity rows, the other rows stay. *)
Lemma reset_rows_lookup (n m : nat) (il : list nat) (M : matrix) :
  length M = n + m -> Forall (fun row => length row = n) M ->
  (forall i, i ∈ il -> i < m) ->
  let M' := foldl (fun M i =>
                     foldl (fun M j => matrix_set M (i + n) j
                                         (if decide (i = j) then 1%Z else 0%Z))
                           M (seq 0 n)) M il in
  length M' = n + m /\ Forall (fun row => length row = n) M' /\
  forall r, M' !! r = if decide (n <= r /\ (r - n) ∈ il)
                      then Some (identity_row n (r - n)) else M !! r.
Proof.
  revert M. induction il as [|i il IH]; intros M Hlen Hrows His; cbn [foldl].
  - split; [done|]. split; [done|]. intros r.
    rewrite decide_False; [done|]. intros [_ Hin]. by apply not_elem_of_nil in Hin.
  - assert (i < m) as Hi by (apply His, elem_of_cons; by left).
    destruct (lookup_lt_is_Some_2 M (i + n)) as [row Hrow]; [lia|].
    pose proof (proj1 (Forall_lookup _ _) Hrows _ _ Hrow) as Hrowlen. simpl in Hrowlen.
    rewrite (row_loop_matrix _ _ _ _ _ Hrow), (row_loop _ _ _ Hrowlen).
    fold (identity_row n i).
    destruct (IH (<[i + n := identity_row n i]> M)) as (Hlen' & Hrows' & Hlook).
    + by rewrite length_insert.
    + apply Forall_insert; [done|]. unfold identity_row.
      by rewrite length_map, length_seq.
    + intros i' Hi'. apply His, elem_of_cons. by right.
    + split; [done|]. split; [done|]. intros r. rewrite Hlook.
      destruct (decide (n <= r /\ (r - n) ∈ il)) as [[Hr Hin]|Hnot].
      * rewrite decide_True; [done|]. split; [done|]. apply elem_of_cons. by right.
      * destruct (decide (r = i + n)) as [->|Hne].
        -- rewrite decide_True.
           ++ rewrite list_lookup_insert_eq by lia. by replace (i + n - n) with i by lia.
           ++ split; [lia|]. apply elem_of_cons. left. lia.
        -- rewrite list_lookup_insert_ne by done.
           rewrite decide_False; [done|]. intros [Hr Hin].
           apply elem_of_cons in Hin as [Heq|Hin]; [lia|]. by apply Hnot.
Qed.

Lemma identity_matrix_lookup n i :
  i < n -> identity_matrix n !! i = Some (identity_row n i).
Proof.
  intros Hi. unfold identity_matrix. by rewrite lookup_map, (lookup_seq_lt 0 n i Hi).
Qed.

(** The two loops put the identity below the first n rows. *)
Lemma reset_bottom_block_spec (M : matrix) n m :
  length M = n + m -> Forall (fun row => length row = n) M -> n = m ->
  reset_bottom_block M n m = take n M ++ identity_matrix n.
Proof.
  intros Hlen Hrows Hnm. unfold reset_bottom_block.
  destruct (reset_rows_lookup n m (seq 0 m) M Hlen Hrows) as (Hlen' & _ & Hlook).
  { intros i Hi%elem_of_seq. lia. }
  apply list_eq. intros r. rewrite Hlook.
  destruct (decide (r < n)) as [Hr|Hr].
  - rewrite decide_False by lia.
    rewrite lookup_app_l by (rewrite length_take_le; lia).
    by rewrite lookup_take_lt.
  - rewrite lookup_app_r by (rewrite length_take_le; lia).
    rewrite length_take_le by lia.
    destruct (decide (r - n < m)) as [Hrm|Hrm].
    + rewrite decide_True by (split; [lia|apply elem_of_seq; lia]).
      rewrite identity_matrix_lookup; [done|lia].
    + rewrite decide_False by (intros [_ Hin%elem_of_seq]; lia).
      rewrite !lookup_ge_None_2; [done| |lia].
      rewrite length_identity_matrix. lia.
Qed.

(** The columns of a matrix with the identity below its first n rows are
    unit vectors there. *)
Lemma c_column_unit (T : matrix) n k :
  length T = n -> k < n ->
  map (fun i => entry (T ++ identity_matrix n) i k) (seq n n) = unit_vector n k.
Proof.
  intros HT Hk. unfold unit_vector. apply list_eq. intros i. rewrite !lookup_map.
  destruct (decide (i < n)) as [Hi|Hi].
  - rewrite (lookup_seq_lt n n i Hi), (lookup_seq_lt 0 n i Hi). simpl. f_equal.
    change (T ++ identity_matrix n) with (stack T (identity_matrix n)).
    replace (n + i) with (length T + i) by lia.
    by rewrite (entry_stack_below T), entry_identity.
  - by rewrite !lookup_seq_ge by lia.
Qed.

(** ** Setting and resetting the cluster *)

Section Clusters.

Context {R : FractionField}.
Implicit Types (self s : ClusterSeed R).


(** [set_cluster] accepts exactly the lists of n+m members of the field. *)
Lemma set_cluster_accepts self (cluster : list R) :
  length cluster = _n self + _m self ->
  (forall c, In c cluster -> contains R (fst (_R self)) (snd (_R self)) c = true) ->
  set_cluster self cluster
  = (with_is_principal (with_cluster self cluster) None, Return tt).
Proof.
  intros Hlen Hin. unfold set_cluster.
  rewrite (proj2 (Nat.eqb_eq _ _) Hlen). cbn [negb].
  destruct (existsb _ cluster) eqn:Hex; [|done].
  apply existsb_exists in Hex as (c & Hc & Hneg).
  by rewrite (Hin c Hc) in Hneg.
Qed.

End Clusters.

(** X4: [set_cluster] checks the number of values before it checks their
    membership; a call that raises leaves the seed as it was; a call that
    returns has installed exactly the n+m given values, has kept the matrix
    and the shape invariant, and has cleared the principal-coefficients flag,
    so that [f_polynomial] and [g_vector] without the override flag raise
    'No principal coefficients initialized' afterwards, also on a seed that
    had principal coefficients. *)
Theorem set_cluster_outcome (R : FractionField) (self : ClusterSeed R) (cluster : list R) :
  (length cluster <> _n self + _m self ->
   set_cluster self cluster = (self, Raise (ValueError msg_wrong_number))) /\
  (length cluster = _n self + _m self ->
   (exists c, In c cluster /\ contains R (fst (_R self)) (snd (_R self)) c = false) ->
   set_cluster self cluster = (self, Raise (ValueError msg_not_contained))) /\
  (length cluster = _n self + _m self ->
   (forall c, In c cluster -> contains R (fst (_R self)) (snd (_R self)) c = true) ->
   exists s',
     set_cluster self cluster = (s', Return tt) /\
     _cluster s' = cluster /\ _M s' = _M self /\ _is_principal s' = None /\
     (well_shaped self -> well_shaped s') /\
     forall k, f_polynomial s' k false = Raise (ValueError msg_no_principal_coefficients) /\
               g_vector s' k false = Raise (ValueError msg_no_principal_coefficients)).
Proof.
  split; [|split].
  - intros Hne. unfold set_cluster.
    by rewrite (proj2 (Nat.eqb_neq _ _) Hne).
  - intros Hlen (c & Hc & Hout). unfold set_cluster.
    rewrite (proj2 (Nat.eqb_eq _ _) Hlen). cbn [negb].
    assert (existsb (fun c => negb (contains R (fst (_R self)) (snd (_R self)) c)) cluster
            = true) as ->; [|done].
    apply existsb_exists. exists c. by rewrite Hout.
  - intros Hlen Hin. eexists. split; [by apply set_cluster_accepts|].
    cbn [with_is_principal with_cluster _cluster _M _is_principal].
    split; [done|]. split; [done|]. split; [done|]. split.
    + intros (HM & Hrows & _). by split; [|split].
    + intros k. by unfold f_polynomial, g_vector.
Qed.

(** X5: when the generators of the field are n+m members of it, after any
    call of [mutate], whatever its outcome, [reset_cluster] returns and puts
    the initial generators back as the cluster, keeping the matrix that the
    mutation left. *)
Theorem reset_cluster_after_mutate (R : FractionField) (self s' : ClusterSeed R)
    (sequence : pyval) (inplace : pyflag) (r : result (option (ClusterSeed R))) :
  GeneratorLaws R ->
  field_matches self ->
  mutate self sequence inplace = (s', r) ->
  exists s'',
    reset_cluster s' = (s'', Return tt) /\
    _cluster s'' = gens R (_n self) (_m self) /\
    _M s'' = _M s' /\ _is_principal s'' = None.
Proof.
  intros [Hglen Hgin] Hfield Hmut.
  destruct (mutate_other_fields _ _ _ _ _ Hmut) as (Hn & Hm & HR & _).
  unfold field_matches in Hfield.
  eexists. split.
  - unfold reset_cluster. apply set_cluster_accepts.
    + rewrite HR, Hfield, Hn, Hm. apply Hglen.
    + intros c Hc. by apply Hgin.
  - cbn [with_is_principal with_cluster _cluster _M _is_principal].
    by rewrite HR, Hfield.
Qed.

(** ** The c-vectors *)

(** X6: [reset_principal_coefficients] raises and changes nothing when
    n <> m; on a seed with n = m that satisfies the shape invariant it keeps
    the first n rows of the matrix and the cluster, puts the identity in the
    bottom block, clears the cached quiver and keeps the shape invariant, so
    that afterwards every c-vector, read with the override flag, is a unit
    vector. *)
Theorem reset_principal_coefficients_outcome (R : FractionField) (self : ClusterSeed R) :
  (_n self <> _m self ->
   reset_principal_coefficients self = (self, inl numbers_do_not_coincide)) /\
  (well_shaped self -> _n self = _m self ->
   exists s',
     reset_principal_coefficients self = (s', inr tt) /\
     _M s' = take (_n self) (_M self) ++ identity_matrix (_n self) /\
     _cluster s' = _cluster self /\ _quiver s' = None /\
     well_shaped s' /\
     forall k, k < _n self ->
       c_vector s' (Z.of_nat k) true = Return (unit_vector (_n self) k)).
Proof.
  split.
  - intros Hne. unfold reset_principal_coefficients.
    by rewrite (proj2 (Nat.eqb_neq _ _) Hne).
  - intros (Hlen & Hrows & Hcl) Hnm. unfold reset_principal_coefficients.
    rewrite (proj2 (Nat.eqb_eq _ _) Hnm). cbn [negb].
    rewrite (reset_bottom_block_spec _ _ _ Hlen Hrows Hnm).
    eexists. split; [reflexivity|].
    cbn [with_quiver with_M _M _cluster _quiver _n _m].
    assert (length (take (_n self) (_M self)) = _n self) as Htake
      by (rewrite length_take_le; lia).
    split; [done|]. split; [done|]. split; [done|]. split.
    + unfold well_shaped. cbn [with_quiver with_M _M _cluster _n _m].
      split; [|split; [|done]].
      * rewrite length_app, Htake, length_identity_matrix. lia.
      * apply Forall_app. split; [by apply Forall_take|apply identity_matrix_rows].
    + intros k Hk. unfold c_vector. cbn [with_quiver with_M _M _n _m].
      rewrite (in_range_nat _ _ Hk). cbn [negb orb]. rewrite Nat2Z.id, <- Hnm.
      by rewrite (c_column_unit _ _ _ Htake Hk).
Qed.

(** X7: on a seed that satisfies the shape invariant, whenever [c_matrix]
    returns, it has one row per frozen variable and [c_vector(k)] at a valid
    index is its k-th column. *)
Theorem c_vector_is_column (R : FractionField) (self : ClusterSeed R) (k : Z)
    (ignore_coefficients : bool) (cm : matrix) :
  well_shaped self ->
  in_range (_n self) (PInt k) = true ->
  c_matrix self ignore_coefficients = Return cm ->
  length cm = _m self /\
  c_vector self k ignore_coefficients
  = Return (map (fun row => default 0%Z (row !! Z.to_nat k)) cm).
Proof.
  intros (Hlen & _ & _) Hk. unfold c_matrix, c_vector. rewrite Hk. cbn [negb].
  destruct (negb (ignore_coefficients || is_principal_set self)); [done|].
  intros [= <-]. unfold submatrix_from_row. split; [rewrite length_drop; lia|].
  f_equal. apply list_eq. intros i. rewrite !lookup_map, lookup_drop.
  destruct (decide (i < _m self)) as [Hi|Hi].
  - rewrite (lookup_seq_lt _ _ i Hi). simpl. unfold entry.
    destruct (lookup_lt_is_Some_2 (_M self) (_n self + i)) as [row ->]; [lia|].
    simpl. by destruct (row !! Z.to_nat k).
  - rewrite lookup_seq_ge by lia. by rewrite lookup_ge_None_2 by lia.
Qed.

(** X8: on the seed that [principal_extension] returns for a seed with
    m = 0, the c-matrix is the identity and every c-vector is a unit vector,
    without the override flag. *)
Theorem principal_extension_c_vectors (R : FractionField) (self T : ClusterSeed R) (k : nat) :
  well_shaped self -> _m self = 0 -> k < _n self ->
  principal_extension self false = Return T ->
  c_matrix T false = Return (identity_matrix (_n self)) /\
  c_vector T (Z.of_nat k) false = Return (unit_vector (_n self) k).
Proof.
  intros Hshape Hm Hk H. pose proof Hshape as (Hlen & _ & _).
  rewrite Hm, Nat.add_0_r in Hlen.
  rewrite principal_extension_returns in H by (by right). injection H as <-.
  unfold c_matrix, c_vector, is_principal_set.
  cbn [with_mutation_type init init_from_matrix init_from_quiver with_is_principal
       ClusterQuiver_of_matrix _n _m _M _is_principal q_M q_n q_m].
  rewrite (ncols_stack self Hshape), Hm. unfold nrows.
  assert (length (stack (_M self) (identity_matrix (_n self))) = _n self + _n self)
    as -> by (unfold stack; by rewrite length_app, length_identity_matrix, Hlen).
  replace (_n self + _n self - _n self) with (_n self) by lia.
  rewrite (in_range_nat _ _ Hk). cbn [Nat.eqb negb orb]. split.
  - unfold submatrix_from_row, stack. by rewrite drop_app_length'.
  - rewrite Nat2Z.id. unfold stack. by rewrite (c_column_unit _ _ _ Hlen Hk).
Qed.

(** ** The cached quiver *)




(** ** Mutation sequences *)

Section Sequences.

Context {R : FractionField}.
Implicit Types (self seed T : ClusterSeed R).

(** The seed [s] as a clone returned by [mutate]: no flag, no cached
    quiver. *)
Local Abbreviation clone s := (with_quiver (with_is_principal s None) None).

Lemma mutate_loop_clone seed ks :
  mutate_loop (clone seed) ks
  = (clone (fst (mutate_loop seed ks)), snd (mutate_loop seed ks)).
Proof.
  revert seed. induction ks as [|k ks IH]; intros seed; [done|].
  simpl. rewrite !mutate_step_unfold. cbn [with_quiver with_is_principal _cluster].
  destruct (feqb R (cluster_at (_cluster seed) k) (fzero R)); [done|].
  apply (IH (mutated seed k)).
Qed.

Lemma filter_all_in_range n (l : list pyval) :
  Forall (fun v => in_range n v = true) l ->
  List.filter (fun v => negb (in_range n v)) l = [].
Proof.
  induction 1 as [|v l Hv _ IH]; [done|]. simpl. by rewrite Hv.
Qed.

(** The clone returned for a list of valid vertices. *)
Lemma mutate_list_of_vertices self (l : list pyval) :
  Forall (fun v => in_range (_n self) v = true) l ->
  snd (mutate_loop self (map index_of l)) = None ->
  mutate self (PList l) (FBool false)
  = (self, Return (Some (clone (fst (mutate_loop self (map index_of l)))))).
Proof.
  intros Hall Hloop. unfold mutate. cbn [truth in_range]. unfold mutate_list.
  cbn [type_is_bool negb truth init_from_seed _n].
  rewrite (filter_all_in_range _ _ Hall).
  change (init_from_seed self None) with (with_is_principal self None).
  rewrite mutate_loop_flag.
  destruct (mutate_loop self (map index_of l)) as [s0 o]. simpl in Hloop. by subst o.
Qed.

(** The clone returned for one vertex. *)
Lemma mutate_vertex_clone seed z S' T :
  mutate seed (PInt z) (FBool false) = (S', Return (Some T)) ->
  in_range (_n seed) (PInt z) = true /\
  mutate_step seed (Z.to_nat z) = Return (mutated seed (Z.to_nat z)) /\
  T = clone (mutated seed (Z.to_nat z)).
Proof.
  unfold mutate. cbn [truth init_from_seed _n].
  destruct (in_range (_n seed) (PInt z)) eqn:Hr; [|discriminate].
  unfold mutate_list. cbn [type_is_bool negb truth List.filter init_from_seed _n].
  rewrite Hr. cbn [negb map index_of].
  change (init_from_seed seed None) with (with_is_principal seed None).
  rewrite mutate_loop_flag. cbn [mutate_loop]. rewrite mutate_step_unfold.
  destruct (feqb R (cluster_at (_cluster seed) (Z.to_nat z)) (fzero R));
    cbn [fst snd]; [discriminate|].
  by intros [= _ <-].
Qed.

Lemma mutation_sequence_loop_prefix sequence seed seeds vars i T :
  mutation_sequence_loop seed sequence = Return (seeds, vars) ->
  seeds !! i = Some T ->
  Forall (fun v => in_range (_n seed) v = true) (take (S i) sequence) /\
  snd (mutate_loop seed (map index_of (take (S i) sequence))) = None /\
  T = clone (fst (mutate_loop seed (map index_of (take (S i) sequence)))).
Proof.
  revert seed seeds vars i.
  induction sequence as [|v sequence IH]; intros seed seeds vars i H Hi; simpl in H.
  - injection H as <- <-. by rewrite lookup_nil in Hi.
  - destruct (mutate seed v (FBool false)) as [S' [[T1|]|e]] eqn:Hm; try discriminate.
    destruct v as [z| | | |]; try discriminate.
    destruct (mutation_sequence_loop T1 sequence) as [[seeds' vars']|e] eqn:Hl;
      [|discriminate].
    injection H as <- <-.
    destruct (mutate_vertex_clone _ _ _ _ Hm) as (Hr & Hstep & ->).
    cbn [take map index_of mutate_loop]. rewrite Hstep.
    destruct i as [|i]; simpl in Hi.
    + injection Hi as <-. cbn [take map mutate_loop fst snd].
      split; [by constructor|done].
    + destruct (IH _ _ _ _ Hl Hi) as (Hall & Hnone & ->).
      rewrite mutate_loop_clone in Hnone. rewrite mutate_loop_clone.
      split; [by constructor|]. split; [done|]. reflexivity.
Qed.

Lemma mutation_sequence_loop_length sequence seed seeds vars :
  mutation_sequence_loop seed sequence = Return (seeds, vars) ->
  length seeds = length sequence /\ length vars = length sequence.
Proof.
  revert seed seeds vars.
  induction sequence as [|v sequence IH]; intros seed seeds vars H; simpl in H.
  - by injection H as <- <-.
  - destruct (mutate seed v (FBool false)) as [S' [[T1|]|e]]; try discriminate.
    destruct v; try discriminate.
    destruct (mutation_sequence_loop T1 sequence) as [[seeds' vars']|e] eqn:Hl;
      [|discriminate].
    injection H as <- <-. destruct (IH _ _ _ Hl) as [Hs Hv]. simpl. by rewrite Hs, Hv.
Qed.

End Sequences.

(** X10: when [mutation_sequence] returns its list of seeds, there is one
    seed per vertex of the sequence, the seed at position i is the clone that
    [mutate] with [inplace=False] returns for the list of the first i+1
    vertices, and the same call in 'matrix' mode returns the matrices of
    these seeds. *)
Theorem mutation_sequence_prefixes (R : FractionField) (self : ClusterSeed R)
    (sequence : list pyval) (l : list (ClusterSeed R)) :
  mutation_sequence self sequence output_seed = Return (Seeds l) ->
  length l = length sequence /\
  (forall i T, l !! i = Some T ->
     mutate self (PList (take (S i) sequence)) (FBool false) = (self, Return (Some T))) /\
  mutation_sequence self sequence output_matrix = Return (Matrices (map _M l)).
Proof.
  unfold mutation_sequence. cbn [init].
  destruct (mutation_sequence_loop (init_from_seed self None) sequence)
    as [[seeds vars]|e] eqn:Hl; [|discriminate].
  intros [= <-]. split; [by destruct (mutation_sequence_loop_length _ _ _ _ Hl)|].
  split; [|done]. intros i T Hi.
  destruct (mutation_sequence_loop_prefix _ _ _ _ _ _ Hl Hi) as (Hall & Hnone & ->).
  change (init_from_seed self None) with (with_is_principal self None) in *.
  rewrite mutate_loop_flag in Hnone. rewrite mutate_loop_flag.
  cbn [snd fst] in *.
  by rewrite (mutate_list_of_vertices self _ Hall Hnone).
Qed.

(** ** Equality of seeds *)

Section Equality.

Context {K : FieldOps} (L : FieldLaws K).
Implicit Types (s t u : ClusterSeed K) (c d : list K).

Lemma cluster_eqb_Forall2 c d : cluster_eqb c d = true -> Forall2 feq c d.
Proof.
  revert d. induction c as [|a c IH]; intros [|b d] H; simpl in H;
    try discriminate; [constructor|].
  apply andb_prop in H as [Hab Hcd]. constructor; [exact Hab|by apply IH].
Qed.

Lemma seed_eq_spec s t :
  seed_eq s t = true <-> _M s = _M t /\ Forall2 feq (_cluster s) (_cluster t).
Proof.
  unfold seed_eq, matrix_eqb. rewrite andb_true_iff, bool_decide_eq_true. split.
  - intros [HM Hc]. split; [done|by apply cluster_eqb_Forall2].
  - intros [HM Hc]. split; [done|by apply cluster_eqb_true].
Qed.

Lemma Forall2_feq_sym c d : Forall2 feq c d -> Forall2 feq d c.
Proof. induction 1; constructor; [by apply (feq_sym K L)|done]. Qed.

Lemma Forall2_feq_trans c d e :
  Forall2 feq c d -> Forall2 feq d e -> Forall2 feq c e.
Proof.
  intros H. revert e. induction H as [|a b c d Hab _ IH]; intros e He.
  - by inversion He.
  - inversion He as [|b' x d' e' Hbx Hde]; subst.
    constructor; [by apply (feq_trans K L a b x)|by apply IH].
Qed.

End Equality.

(** X11: over a field with exact arithmetic, [__eq__] is an equivalence
    relation on seeds, and it looks at the matrix and the cluster only: a
    seed is equal to itself with any other principal-coefficients flag,
    cached quiver and mutation type. *)
Theorem seed_eq_equivalence (K : FieldOps) :
  FieldLaws K ->
  (forall s : ClusterSeed K, seed_eq s s = true) /\
  (forall s t : ClusterSeed K, seed_eq s t = true -> seed_eq t s = true) /\
  (forall s t u : ClusterSeed K,
     seed_eq s t = true -> seed_eq t u = true -> seed_eq s u = true) /\
  (forall (s : ClusterSeed K) p q ty,
     seed_eq s (with_mutation_type (with_quiver (with_is_principal s p) q) ty) = true).
Proof.
  intros L. split; [|split; [|split]].
  - intros s. apply seed_eq_spec. split; [done|apply (Forall2_feq_refl L)].
  - intros s t [HM Hc]%seed_eq_spec. apply seed_eq_spec.
    split; [done|by apply (Forall2_feq_sym L)].
  - intros s t u [HM1 Hc1]%seed_eq_spec [HM2 Hc2]%seed_eq_spec. apply seed_eq_spec.
    split; [congruence|by apply (Forall2_feq_trans L _ (_cluster t))].
  - intros s p q ty. apply seed_eq_spec. split; [done|apply (Forall2_feq_refl L)].
Qed.

(** ** The cluster and the exchangeable part *)

Lemma collect_total {A B} (f : A -> result B) (g : A -> B) (l : list A) :
  (forall a, In a l -> f a = Return (g a)) -> collect f l = Return (map g l).
Proof.
  induction l as [|a l IH]; intros Hf; [done|].
  simpl. rewrite (Hf a) by (by left). rewrite IH; [done|].
  intros a' Ha'. apply Hf. by right.
Qed.

Lemma collect_length {A B} (f : A -> result B) (l : list A) (bs : list B) :
  collect f l = Return bs -> length bs = length l.
Proof.
  revert bs. induction l as [|a l IH]; intros bs H; simpl in H.
  - by injection H as <-.
  - destruct (f a); [|discriminate]. destruct (collect f l); [|discriminate].
    injection H as <-. simpl. by rewrite (IH _ eq_refl).
Qed.

Lemma ncols_take n (M : matrix) :
  n <= length M -> Forall (fun row => length row = n) M -> ncols (take n M) = n.
Proof.
  intros Hlen Hrows. destruct n as [|n]; [done|].
  destruct M as [|row M']; [simpl in Hlen; lia|].
  simpl. by inversion Hrows.
Qed.

Section Exchangeable.

Context {R : FractionField}.
Implicit Types (self S T U : ClusterSeed R).

Lemma exchangeable_part_fields self U :
  length (_M self) = _n self + _m self ->
  Forall (fun row => length row = _n self) (_M self) ->
  exchangeable_part self = Return U ->
  _M U = take (_n self) (_M self) /\ _n U = _n self /\ _m U = 0 /\
  length (_cluster U) = _n self /\
  _mutation_type U = _mutation_type self /\ _is_principal U = None.
Proof.
  intros Hlen Hrows. unfold exchangeable_part.
  destruct (collect _ (seq 0 (_n self))) as [cluster'|e] eqn:Hc; [|discriminate].
  intros [= <-]. apply collect_length in Hc. rewrite length_seq in Hc.
  assert (ncols (_M self) = _n self) as Hcols.
  { destruct (_M self) as [|row M']; [simpl in *; lia|]. simpl. by inversion Hrows. }
  unfold _principal_part. rewrite Hcols.
  cbn [with_mutation_type with_cluster init init_from_matrix init_from_quiver
       with_is_principal ClusterQuiver_of_matrix _n _m _M _cluster _mutation_type
       _is_principal q_M q_n q_m].
  rewrite ncols_take by (done || lia). unfold nrows. rewrite length_take_le by lia.
  split; [done|]. split; [done|]. split; [lia|]. done.
Qed.

End Exchangeable.

(** X12: on a seed that satisfies the shape invariant, [cluster()] returns
    the first n entries of the stored cluster, tagged as cluster variables:
    the m frozen variables are left out, and [cluster_variable(k)] raises for
    every index from n on, also for the index of a frozen variable. *)
Theorem cluster_lists_exchangeable (R : FractionField) (self : ClusterSeed R) :
  well_shaped self ->
  cluster self
  = Return (map (fun f => {| cv_value := f; _variable_type := Some cluster_variable_tag |})
                (take (_n self) (_cluster self))) /\
  (forall k, (Z.of_nat (_n self) <= k)%Z ->
     cluster_variable self k = Raise (ValueError (msg_no_cluster_variable k))).
Proof.
  intros (_ & _ & Hcl). split.
  - unfold cluster.
    rewrite (collect_total _ (fun k => {| cv_value := cluster_at (_cluster self) k;
                                          _variable_type := Some cluster_variable_tag |})).
    + f_equal. apply list_eq. intros i. rewrite !lookup_map.
      destruct (decide (i < _n self)) as [Hi|Hi].
      * rewrite (lookup_seq_lt _ _ i Hi), lookup_take_lt by done. simpl.
        unfold cluster_at.
        by destruct (lookup_lt_is_Some_2 (_cluster self) i) as [f ->]; [lia|].
      * rewrite lookup_seq_ge by lia.
        by rewrite lookup_ge_None_2 by (rewrite length_take_le; lia).
    + intros k Hk%in_seq. unfold cluster_variable.
      rewrite in_range_nat by lia. cbn [negb]. by rewrite Nat2Z.id.
  - intros k Hk. unfold cluster_variable.
    assert (in_range (_n self) (PInt k) = false) as ->; [|done].
    unfold in_range. apply andb_false_iff. right. lia.
Qed.

(** X13: on a seed that satisfies the shape invariant, when
    [exchangeable_part] returns, the result has the first n rows of the
    matrix, the same n, no frozen variable, n cluster variables, the same
    mutation type and no principal-coefficients flag, and it satisfies the
    shape invariant. *)
Theorem exchangeable_part_shape (R : FractionField) (self U : ClusterSeed R) :
  well_shaped self ->
  exchangeable_part self = Return U ->
  _M U = take (_n self) (_M self) /\ _n U = _n self /\ _m U = 0 /\
  _mutation_type U = _mutation_type self /\ _is_principal U = None /\
  well_shaped U.
Proof.
  intros (Hlen & Hrows & _) H.
  destruct (exchangeable_part_fields self U Hlen Hrows H)
    as (HM & Hn & Hm & Hcl & Hty & Hp).
  repeat (split; [done|]). unfold well_shaped. rewrite HM, Hn, Hm, Hcl.
  split; [rewrite length_take_le; lia|]. split; [by apply Forall_take|lia].
Qed.

(** X14: the exchangeable part of the principal extension of a seed without
    frozen variables has the matrix, the rank and the mutation type of that
    seed, and no frozen variable. *)
Theorem exchangeable_part_of_principal_extension (R : FractionField)
    (S T U : ClusterSeed R) :
  well_shaped S -> _m S = 0 ->
  principal_extension S false = Return T ->
  exchangeable_part T = Return U ->
  _M U = _M S /\ _n U = _n S /\ _m U = 0 /\ _mutation_type U = _mutation_type S.
Proof.
  intros Hshape Hm HT HU. pose proof Hshape as (Hlen & Hrows & _).
  rewrite Hm, Nat.add_0_r in Hlen.
  rewrite principal_extension_returns in HT by (by right). injection HT as <-.
  apply exchangeable_part_fields in HU.
  - cbn [with_mutation_type init init_from_matrix init_from_quiver with_is_principal
         ClusterQuiver_of_matrix _n _m _M _mutation_type q_M q_n q_m] in HU.
    rewrite (ncols_stack S Hshape) in HU.
    destruct HU as (HM & Hn & Hm' & _ & Hty & _).
    split; [|done]. rewrite HM. unfold stack. by apply take_app_length'.
  - cbn [with_mutation_type init init_from_matrix init_from_quiver with_is_principal
         ClusterQuiver_of_matrix _n _m _M q_M q_n q_m].
    rewrite (ncols_stack S Hshape). unfold nrows, stack.
    rewrite length_app, length_identity_matrix. lia.
  - cbn [with_mutation_type init init_from_matrix init_from_quiver with_is_principal
         ClusterQuiver_of_matrix _n _m _M q_M q_n q_m].
    rewrite (ncols_stack S Hshape). unfold stack.
    apply Forall_app. split; [done|apply identity_matrix_rows].
Qed.

(** * Non negative integers *)

Lemma yielded_spec (count : nat) (i : Z) :
  NonNegativeIntegers.yielded count i = map (fun k => (i + Z.of_nat k)%Z) (seq 0 count).
Proof.
  revert i. induction count as [|count IH]; intros i; [done|].
  cbn [NonNegativeIntegers.yielded NonNegativeIntegers.generator_step seq map].
  rewrite IH, <- seq_shift, map_map. f_equal; [lia|].
  apply map_ext. intros k. lia.
Qed.

(** X15: [_element_constructor_] returns v exactly for the integer v >= 0
    and raises the 'not in' ValueError for every other object, while
    [from_integer] tests nothing; [next] keeps an element in the set, and
    [an_element()] and the [some_elements()] are elements. *)
Theorem element_constructor_checks :
  (forall i v, NonNegativeIntegers._element_constructor_ i = inr v
               <-> i = NonNegativeIntegers.Int v /\ (0 <= v)%Z) /\
  (forall i, NonNegativeIntegers.contains i = false ->
     NonNegativeIntegers._element_constructor_ i = inl (NonNegativeIntegers.not_in i)) /\
  (forall z, NonNegativeIntegers.from_integer (NonNegativeIntegers.Int z) = inr z) /\
  (forall o, NonNegativeIntegers.contains (NonNegativeIntegers.Int o) = true ->
     NonNegativeIntegers.contains
       (NonNegativeIntegers.Int (NonNegativeIntegers.next o)) = true) /\
  NonNegativeIntegers.contains
    (NonNegativeIntegers.Int NonNegativeIntegers.an_element) = true /\
  Forall (fun v => NonNegativeIntegers.contains (NonNegativeIntegers.Int v) = true)
         NonNegativeIntegers.some_elements.
Proof.
  split; [|split; [|split; [|split; [|split]]]].
  - intros [z|name] v; unfold NonNegativeIntegers._element_constructor_,
      NonNegativeIntegers.contains, NonNegativeIntegers.from_integer; simpl.
    + destruct (0 <=? z)%Z eqn:Hz; split.
      * intros [= <-]. split; [done|lia].
      * by intros [[= <-] _].
      * discriminate.
      * intros [[= <-] Hv]. lia.
    + split; [discriminate|]. by intros [[=] _].
  - intros i Hi. unfold NonNegativeIntegers._element_constructor_. by rewrite Hi.
  - done.
  - intros o. unfold NonNegativeIntegers.contains, NonNegativeIntegers.next. simpl. lia.
  - done.
  - by repeat constructor.
Qed.

(** X16: the values that iteration over the set yields are 0, 1, 2, ... in
    this order: for every count, the first values are the [unrank] of the
    ranks below the count, each of them is an element of the set, and each
    value but the first is [next] of the one before. *)
Theorem iteration_enumerates (count : nat) :
  NonNegativeIntegers.first_values count
    = map (fun k => NonNegativeIntegers.unrank (Z.of_nat k)) (seq 0 count) /\
  Forall (fun v => NonNegativeIntegers.contains (NonNegativeIntegers.Int v) = true)
         (NonNegativeIntegers.first_values count) /\
  (forall k v, NonNegativeIntegers.first_values count !! k = Some v ->
     S k < count ->
     NonNegativeIntegers.first_values count !! S k = Some (NonNegativeIntegers.next v)).
Proof.
  unfold NonNegativeIntegers.first_values. rewrite yielded_spec.
  split; [done|]. split.
  - apply Forall_lookup. intros k v. rewrite lookup_map.
    destruct (seq 0 count !! k) as [j|]; [|done]. intros [= <-].
    unfold NonNegativeIntegers.contains. cbn [NonNegativeIntegers.Integer].
    apply Z.leb_le. lia.
  - intros k v Hk Hlt. rewrite lookup_map in Hk. rewrite lookup_map.
    rewrite (lookup_seq_lt 0 count (S k) Hlt).
    rewrite (lookup_seq_lt 0 count k) in Hk by lia.
    injection Hk as <-. cbn [fmap option_fmap option_map].
    unfold NonNegativeIntegers.next. f_equal. lia.
Qed.

(** * Torsion subgroups *)

Section Torsion.

Variables (curve pari_point point : Type).
Variable elltors : curve -> Z -> RationalTorsion.attempt pari_point.
Variable pari_double_prec : curve -> option curve.
Variable point_of : pari_point -> point.
Variable height : point -> Q.

Local Abbreviation attempts := (RationalTorsion.attempts elltors pari_double_prec).
Local Abbreviation doubled := (RationalTorsion.doubled pari_double_prec).
Local Abbreviation init :=
  (RationalTorsion.init elltors pari_double_prec point_of height).
Local Abbreviation sort_by_height := (RationalTorsion.sort_by_height height).
Local Abbreviation insert_by_height := (RationalTorsion.insert_by_height height).
Local Abbreviation lower P P' := (height P <= height P')%Q.

(** The loop stops at the first attempt that does not raise RuntimeError,
    after one doubling of the precision per failed attempt. *)
Lemma attempts_spec remaining E flag :
  match attempts remaining E flag with
  | (E', inr (Some G)) =>
      exists j, j < remaining /\ doubled j E = Some E' /\
                elltors E' flag = RationalTorsion.Computed G /\
                forall i E_i, i < j -> doubled i E = Some E_i ->
                              elltors E_i flag = RationalTorsion.RuntimeError_raised
  | (E', inr None) =>
      doubled remaining E = Some E' /\
      forall i E_i, i < remaining -> doubled i E = Some E_i ->
                    elltors E_i flag = RationalTorsion.RuntimeError_raised
  | (_, inl _) => True
  end.
Proof.
  revert E. induction remaining as [|remaining IH]; intros E.
  - simpl. split; [done|]. intros i E_i Hi. lia.
  - cbn [RationalTorsion.attempts].
    destruct (elltors E flag) as [G| |what] eqn:He; [| |done].
    + exists 0. split; [lia|]. split; [done|]. split; [done|]. intros i E_i Hi. lia.
    + destruct (pari_double_prec E) as [E1|] eqn:Hd; [|done].
      specialize (IH E1).
      destruct (attempts remaining E1 flag) as [E' [e|[G|]]]; [done| |].
      * destruct IH as (j & Hj & Hdoubled & Hcomputed & Hfailed).
        exists (S j). split; [lia|]. split; [by simpl; rewrite Hd|]. split; [done|].
        intros [|i] E_i Hi Hdi; simpl in Hdi; [by injection Hdi as <-|].
        rewrite Hd in Hdi. apply (Hfailed i); [lia|done].
      * destruct IH as (Hdoubled & Hfailed).
        split; [by simpl; rewrite Hd|].
        intros [|i] E_i Hi Hdi; simpl in Hdi; [by injection Hdi as <-|].
        rewrite Hd in Hdi. apply (Hfailed i); [lia|done].
Qed.

(** The loop itself never raises 'Could not compute torsion subgroup'. *)
Lemma attempts_error remaining E flag E' :
  attempts remaining E flag <> (E', inl RationalTorsion.could_not_compute).
Proof.
  revert E. induction remaining as [|remaining IH]; intros E; simpl; [done|].
  destruct (elltors E flag); [done| |done].
  destruct (pari_double_prec E); [apply IH|done].
Qed.

Lemma attempts_all_failed remaining E flag E' :
  doubled remaining E = Some E' ->
  (forall i E_i, i < remaining -> doubled i E = Some E_i ->
     elltors E_i flag = RationalTorsion.RuntimeError_raised) ->
  attempts remaining E flag = (E', inr None).
Proof.
  revert E. induction remaining as [|remaining IH]; intros E Hd Hfailed; simpl in *.
  - by injection Hd as <-.
  - rewrite (Hfailed 0 E) by (done || lia).
    destruct (pari_double_prec E) as [E1|] eqn:Hd1; [|discriminate].
    apply IH; [done|]. intros i E_i Hi Hdi.
    apply (Hfailed (S i)); [lia|]. simpl. by rewrite Hd1.
Qed.

Lemma insert_by_height_perm P l : Permutation (insert_by_height P l) (P :: l).
Proof.
  induction l as [|P' l IH]; [done|]. simpl.
  destruct (Qle_bool (height P') (height P)); [|done].
  rewrite IH. apply perm_swap.
Qed.

Lemma insert_by_height_sorted P l :
  StronglySorted (fun P P' => lower P P') l ->
  StronglySorted (fun P P' => lower P P') (insert_by_height P l).
Proof.
  induction 1 as [|P' l Hsorted IH Hall]; simpl.
  - by repeat constructor.
  - destruct (Qle_bool (height P') (height P)) eqn:Hle.
    + constructor; [done|].
      rewrite insert_by_height_perm. constructor; [|done].
      by apply Qle_bool_iff.
    + assert (lower P P') as Hlow.
      { apply Qlt_le_weak, Qnot_le_lt. intros H%Qle_bool_iff. congruence. }
      constructor; [by constructor|]. constructor; [done|].
      eapply Forall_impl; [exact Hall|]. intros Q HQ. simpl in *.
      by apply (Qle_trans _ (height P')).
Qed.

Lemma sort_by_height_spec acc l :
  StronglySorted (fun P P' => lower P P') acc ->
  StronglySorted (fun P P' => lower P P')
    (foldl (fun sorted P => insert_by_height P sorted) acc l) /\
  Permutation (foldl (fun sorted P => insert_by_height P sorted) acc l) (acc ++ l).
Proof.
  revert acc. induction l as [|P l IH]; intros acc Hacc; simpl.
  - by rewrite app_nil_r.
  - destruct (IH (insert_by_height P acc)) as [Hs Hp];
      [by apply insert_by_height_sorted|].
    split; [done|]. rewrite Hp, insert_by_height_perm. by apply Permutation_middle.
Qed.

Lemma sorted_lookup (l : list point) i j P P' :
  StronglySorted (fun P P' => lower P P') l ->
  i <= j -> l !! i = Some P -> l !! j = Some P' -> lower P P'.
Proof.
  intros Hs. revert i j. induction Hs as [|Q l Hsorted IH Hall]; intros i j Hij Hi Hj.
  - by rewrite lookup_nil in Hi.
  - destruct i as [|i], j as [|j]; simpl in *; try lia.
    + injection Hi as <-. injection Hj as <-. apply Qle_refl.
    + injection Hi as <-. by apply (proj1 (Forall_lookup _ _) Hall j).
    + apply (IH i j); [lia|done|done].
Qed.

(** X17: [__init__] tries [elltors] at most three times, doubling the
    precision after each attempt that raises RuntimeError: an object is
    built from the first attempt that succeeds, which is one of the first
    three, and 'Could not compute torsion subgroup' is raised exactly after
    three failed attempts and three doublings. *)
Theorem init_first_success (E : curve) (flag : Z) :
  (forall T, init E flag = inr T ->
     exists j G,
       j < 3 /\ doubled j E = Some (RationalTorsion.__E T) /\
       elltors (RationalTorsion.__E T) flag = RationalTorsion.Computed G /\
       (forall i E_i, i < j -> doubled i E = Some E_i ->
          elltors E_i flag = RationalTorsion.RuntimeError_raised) /\
       RationalTorsion.group_order T = RationalTorsion.G_order _ G /\
       RationalTorsion.group_structure T = RationalTorsion.G_structure _ G) /\
  (init E flag = inl RationalTorsion.could_not_compute <->
     exists E3, doubled 3 E = Some E3 /\
       forall i E_i, i < 3 -> doubled i E = Some E_i ->
         elltors E_i flag = RationalTorsion.RuntimeError_raised).
Proof.
  unfold RationalTorsion.init. pose proof (attempts_spec 3 E flag) as Hspec.
  destruct (attempts 3 E flag) as [E' [e|[G|]]] eqn:Hloop; split; try discriminate.
  - split.
    + intros [= ->]. exfalso. by apply (attempts_error 3 E flag E').
    + intros (E3 & Hd & Hf). by rewrite (attempts_all_failed 3 E flag E3 Hd Hf) in Hloop.
  - intros T [= <-]. destruct Hspec as (j & Hj & Hd & Hc & Hf).
    exists j, G. by cbn.
  - split; [discriminate|].
    intros (E3 & Hd & Hf). by rewrite (attempts_all_failed 3 E flag E3 Hd Hf) in Hloop.
  - split; [|done]. intros _. destruct Hspec as [Hd Hf]. by exists E'.
Qed.

(** X18: the generators of the object that [__init__] builds are the points
    that PARI returned, sorted by height: [gen(i)] for 0 <= i <= j has a
    height at most that of [gen(j)]; [gen] raises IndexError from the number
    of generators on, and a negative index counts from the end. *)
Theorem gens_sorted_by_height (E : curve) (flag : Z)
    (T : RationalTorsion.EllipticCurveTorsionSubgroup curve point)
    (G : RationalTorsion.pari_group pari_point) :
  init E flag = inr T ->
  elltors (RationalTorsion.__E T) flag = RationalTorsion.Computed G ->
  Permutation (RationalTorsion.__torsion_gens T)
              (map point_of (RationalTorsion.G_gens _ G)) /\
  (forall i j P P', (0 <= i <= j)%Z ->
     RationalTorsion.gen T i = Some P -> RationalTorsion.gen T j = Some P' ->
     lower P P') /\
  (forall i, (Z.of_nat (length (RationalTorsion.__torsion_gens T)) <= i)%Z ->
     RationalTorsion.gen T i = None) /\
  (forall i, (- Z.of_nat (length (RationalTorsion.__torsion_gens T)) <= i < 0)%Z ->
     RationalTorsion.gen T i
     = RationalTorsion.gen T (Z.of_nat (length (RationalTorsion.__torsion_gens T)) + i)).
Proof.
  unfold RationalTorsion.init. pose proof (attempts_spec 3 E flag) as Hspec.
  destruct (attempts 3 E flag) as [E' [e|[G'|]]]; try discriminate.
  intros [= <-]. cbn [RationalTorsion.__E RationalTorsion.__torsion_gens].
  destruct Hspec as (_ & _ & _ & Hc & _). rewrite Hc. intros [= <-].
  destruct (sort_by_height_spec [] (map point_of (RationalTorsion.G_gens _ G')))
    as [Hsorted Hperm]; [constructor|].
  fold (sort_by_height (map point_of (RationalTorsion.G_gens _ G'))) in Hsorted, Hperm.
  split; [done|]. unfold RationalTorsion.gen.
  cbn [RationalTorsion.__torsion_gens]. split; [|split].
  - intros i j P P' [Hi Hij].
    rewrite (proj2 (Z.leb_le 0 i)), (proj2 (Z.leb_le 0 j)) by lia.
    apply (sorted_lookup _ _ _ _ _ Hsorted). lia.
  - intros i Hi. rewrite (proj2 (Z.leb_le 0 i)) by lia.
    apply lookup_ge_None_2. lia.
  - intros i [Hlow Hneg].
    rewrite (proj2 (Z.leb_gt 0 i)), (proj2 (Z.leb_le _ i)) by lia.
    by rewrite (proj2 (Z.leb_le 0 _)) by lia.
Qed.

End Torsion.

(** * The further properties on the example seeds *)

Lemma A4_skew_symmetrizable : skew_symmetrizable 4 A4_matrix.
Proof.
  exists (fun _ => 1%Z). split; [lia|].
  intros [|[|[|[|i]]]] [|[|[|[|j]]]] Hi Hj; try lia; reflexivity.
Qed.

Lemma A4_seed_wf : wf_seed A4_seed.
Proof.
  split; [|exact A4_skew_symmetrizable].
  split; [reflexivity|]. split; [|reflexivity]. repeat constructor.
Qed.

Lemma A3_seed_shaped : well_shaped A3_seed.
Proof. split; [reflexivity|]. split; [|reflexivity]. repeat constructor. Qed.

Lemma A3_principal_shaped : well_shaped A3_principal.
Proof. split; [reflexivity|]. split; [|reflexivity]. repeat constructor. Qed.

(** Fractions are kept reduced: (x0^2 - x1^2)/(x0 - x1) is x0 + x1, and
    the inverse of -x0 is (-1)/x0. *)
Lemma reduce_examples :
  let x0 := RatFun.pvar 0 in
  let x1 := RatFun.pvar 1 in
  RatFun.reduce (RatFun.psub (RatFun.pmul x0 x0) (RatFun.pmul x1 x1)) (RatFun.psub x0 x1)
    = RatFun.of_poly (RatFun.padd x0 x1) /\
  RatFun.pgcd (RatFun.psub (RatFun.pmul x0 x0) (RatFun.pmul x1 x1))
              (RatFun.pmul (RatFun.psub x0 x1) (RatFun.psub x0 x1))
    = RatFun.psub x0 x1 /\
  RatFun.rinv (RatFun.of_poly (RatFun.pneg x0))
    = {| RatFun.num := RatFun.pconst (-1); RatFun.den := x0 |}.
Proof. repeat split; evaluate; reflexivity. Qed.

(** After two mutations at 0 the seed of the matrix
    [[0,1],[-1,0],[1,0],[-1,0]] has its initial cluster again, variable for
    variable, and [g_vector(0)] is (1, 0). *)
Lemma mutate_twice_reduced :
  let S : ClusterSeed RatFun.field :=
    init (DataMatrix [[0; 1]; [-1; 0]; [1; 0]; [-1; 0]]%Z) (Some true) in
  exists S',
    mutate S (PList [PInt 0; PInt 0]) (FBool true) = (S', Return None) /\
    _cluster S' = _cluster S /\
    g_vector S' 0 false = Return [1; 0]%Z.
Proof.
  eexists. split; [evaluate; reflexivity|]. split; evaluate; reflexivity.
Qed.

Lemma RatFun_generator_laws : GeneratorLaws RatFun.field.
Proof.
  split.
  - intros n m. simpl. unfold RatFun.rgens. by rewrite length_map, length_seq.
  - intros n m g. simpl. unfold RatFun.rgens.
    intros (i & <- & Hi%in_seq)%in_map_iff.
    unfold RatFun.rcontains, RatFun.rvar, RatFun.pvar, RatFun.poly_in. simpl.
    rewrite length_app, length_replicate. simpl.
    rewrite andb_true_r. apply andb_true_intro. split; [|done].
    apply Nat.leb_le. lia.
Qed.

Lemma mutate_keeps_invariant_A4 :
  wf_seed (fst (mutate A4_seed (PList [PInt 0; PInt 1; PInt 0]) (FBool true))) /\
  (forall T, snd (mutate A4_seed (PList [PInt 0; PInt 1; PInt 0]) (FBool true))
             = Return (Some T) -> wf_seed T).
Proof.
  apply (mutate_keeps_invariant RatFun.field A4_seed
           (PList [PInt 0; PInt 1; PInt 0]) (FBool true)).
  - exact A4_seed_wf.
  - evaluate. reflexivity.
Defined.

Lemma mutate_keeps_other_fields_A3 :
  let s' := fst (mutate A3_principal (PList [PInt 2; PInt 1; PInt 2]) (FBool true)) in
  _n s' = 3 /\ _m s' = 3 /\ _R s' = (3, 3) /\ _is_principal s' = Some true /\
  _mutation_type s' = _mutation_type A3_principal /\
  _description s' = _description A3_principal /\
  (forall k, x s' k = x A3_principal k /\ y s' k = y A3_principal k).
Proof.
  apply (mutate_keeps_other_fields RatFun.field A3_principal _
           (PList [PInt 2; PInt 1; PInt 2]) (FBool true)
           (snd (mutate A3_principal (PList [PInt 2; PInt 1; PInt 2]) (FBool true)))).
  evaluate. reflexivity.
Defined.

Lemma set_cluster_outcome_A3 :
  set_cluster A3_principal [RatFun.rconst 1]
    = (A3_principal, Raise (ValueError msg_wrong_number)) /\
  exists s',
    set_cluster A3_principal (gens RatFun.field 3 3) = (s', Return tt) /\
    _cluster s' = gens RatFun.field 3 3 /\ _M s' = _M A3_principal /\
    _is_principal s' = None /\
    (well_shaped A3_principal -> well_shaped s') /\
    forall k, f_polynomial s' k false = Raise (ValueError msg_no_principal_coefficients) /\
              g_vector s' k false = Raise (ValueError msg_no_principal_coefficients).
Proof.
  split.
  - apply (set_cluster_outcome RatFun.field A3_principal [RatFun.rconst 1]).
    simpl. lia.
  - apply (set_cluster_outcome RatFun.field A3_principal (gens RatFun.field 3 3)).
    + reflexivity.
    + intros c Hc. by apply (gens_contained RatFun_generator_laws 3 3).
Defined.

Lemma reset_cluster_after_mutate_A3 :
  exists s'',
    reset_cluster (fst (mutate A3_seed (PList [PInt 1; PInt 2; PInt 1]) (FBool true)))
      = (s'', Return tt) /\
    _cluster s'' = gens RatFun.field 3 0 /\
    _M s'' = _M (fst (mutate A3_seed (PList [PInt 1; PInt 2; PInt 1]) (FBool true))) /\
    _is_principal s'' = None.
Proof.
  apply (reset_cluster_after_mutate RatFun.field A3_seed _
           (PList [PInt 1; PInt 2; PInt 1]) (FBool true)
           (snd (mutate A3_seed (PList [PInt 1; PInt 2; PInt 1]) (FBool true)))).
  - exact RatFun_generator_laws.
  - reflexivity.
  - evaluate. reflexivity.
Defined.

Lemma reset_principal_coefficients_outcome_A3 :
  reset_principal_coefficients A3_seed = (A3_seed, inl numbers_do_not_coincide) /\
  exists s',
    reset_principal_coefficients A3_principal = (s', inr tt) /\
    _M s' = take 3 (_M A3_principal) ++ identity_matrix 3 /\
    _cluster s' = _cluster A3_principal /\ _quiver s' = None /\
    well_shaped s' /\
    forall k, k < 3 -> c_vector s' (Z.of_nat k) true = Return (unit_vector 3 k).
Proof.
  split.
  - apply (reset_principal_coefficients_outcome RatFun.field A3_seed). simpl. lia.
  - apply (reset_principal_coefficients_outcome RatFun.field A3_principal).
    + exact A3_principal_shaped.
    + reflexivity.
Defined.

Lemma c_vector_is_column_A3 :
  length (submatrix_from_row (_M A3_principal) 3) = 3 /\
  c_vector A3_principal 1 false
  = Return (map (fun row => default 0%Z (row !! Z.to_nat 1))
                (submatrix_from_row (_M A3_principal) 3)).
Proof.
  apply (c_vector_is_column RatFun.field A3_principal 1 false).
  - exact A3_principal_shaped.
  - reflexivity.
  - reflexivity.
Defined.

Lemma principal_extension_c_vectors_A3 :
  c_matrix A3_principal false = Return (identity_matrix 3) /\
  c_vector A3_principal (Z.of_nat 1) false = Return (unit_vector 3 1).
Proof.
  apply (principal_extension_c_vectors RatFun.field A3_seed A3_principal 1).
  - exact A3_seed_shaped.
  - reflexivity.
  - simpl. lia.
  - reflexivity.
Defined.


Lemma mutation_sequence_prefixes_A2 :
  exists l,
    mutation_sequence A2_seed [PInt 0; PInt 1; PInt 0] output_seed = Return (Seeds l) /\
    length l = 3 /\
    (forall i T, l !! i = Some T ->
       mutate A2_seed (PList (take (S i) [PInt 0; PInt 1; PInt 0])) (FBool false)
       = (A2_seed, Return (Some T))) /\
    mutation_sequence A2_seed [PInt 0; PInt 1; PInt 0] output_matrix
    = Return (Matrices (map _M l)).
Proof.
  eexists. split; [evaluate; reflexivity|].
  apply (mutation_sequence_prefixes RatFun.field A2_seed [PInt 0; PInt 1; PInt 0]).
  evaluate. reflexivity.
Defined.

Lemma seed_eq_equivalence_Qc :
  (forall s : ClusterSeed Qc_ops, seed_eq s s = true) /\
  (forall s t : ClusterSeed Qc_ops, seed_eq s t = true -> seed_eq t s = true) /\
  (forall s t u : ClusterSeed Qc_ops,
     seed_eq s t = true -> seed_eq t u = true -> seed_eq s u = true) /\
  (forall (s : ClusterSeed Qc_ops) p q ty,
     seed_eq s (with_mutation_type (with_quiver (with_is_principal s p) q) ty) = true).
Proof. apply (seed_eq_equivalence Qc_ops). exact Qc_laws. Defined.

Lemma cluster_lists_exchangeable_A3 :
  cluster A3_principal
  = Return (map (fun f => {| cv_value := f; _variable_type := Some cluster_variable_tag |})
                (take 3 (_cluster A3_principal))) /\
  (forall k, (Z.of_nat 3 <= k)%Z ->
     cluster_variable A3_principal k = Raise (ValueError (msg_no_cluster_variable k))).
Proof.
  apply (cluster_lists_exchangeable RatFun.field A3_principal).
  exact A3_principal_shaped.
Defined.

Lemma exchangeable_part_shape_A3 :
  exists U,
    exchangeable_part A3_principal = Return U /\
    _M U = take 3 (_M A3_principal) /\ _n U = 3 /\ _m U = 0 /\
    _mutation_type U = _mutation_type A3_principal /\ _is_principal U = None /\
    well_shaped U.
Proof.
  eexists. split; [evaluate; reflexivity|].
  apply (exchangeable_part_shape RatFun.field A3_principal).
  - exact A3_principal_shaped.
  - evaluate. reflexivity.
Defined.

Lemma exchangeable_part_of_principal_extension_A3 :
  exists U,
    exchangeable_part A3_principal = Return U /\
    _M U = _M A3_seed /\ _n U = _n A3_seed /\ _m U = 0 /\
    _mutation_type U = _mutation_type A3_seed.
Proof.
  eexists. split; [evaluate; reflexivity|].
  apply (exchangeable_part_of_principal_extension RatFun.field A3_seed A3_principal).
  - exact A3_seed_shaped.
  - reflexivity.
  - reflexivity.
  - evaluate. reflexivity.
Defined.

Lemma element_constructor_checks_examples :
  NonNegativeIntegers._element_constructor_ (NonNegativeIntegers.Int 42) = inr 42%Z /\
  NonNegativeIntegers._element_constructor_ (NonNegativeIntegers.Int (-5))
    = inl (NonNegativeIntegers.not_in (NonNegativeIntegers.Int (-5))) /\
  NonNegativeIntegers._element_constructor_ (NonNegativeIntegers.Unconvertible "x")
    = inl (NonNegativeIntegers.not_in (NonNegativeIntegers.Unconvertible "x")).
Proof.
  destruct element_constructor_checks as (Hret & Hraise & _).
  split; [|split].
  - apply Hret. split; [reflexivity|lia].
  - apply Hraise. reflexivity.
  - apply Hraise. reflexivity.
Defined.

Lemma iteration_enumerates_5 :
  NonNegativeIntegers.first_values 5 = [0; 1; 2; 3; 4]%Z /\
  NonNegativeIntegers.first_values 5 !! 4 = Some (NonNegativeIntegers.next 3).
Proof.
  destruct (iteration_enumerates 5) as (Hvalues & _ & Hnext).
  split; [exact Hvalues|]. apply Hnext; [reflexivity|lia].
Defined.

Lemma init_first_success_example :
  (exists T j G,
     RationalTorsion.example_init 1 = inr T /\
     j < 3 /\
     RationalTorsion.doubled RationalTorsion.example_double_prec j 1
       = Some (RationalTorsion.__E T) /\
     RationalTorsion.example_elltors (RationalTorsion.__E T) 0
       = RationalTorsion.Computed G) /\
  RationalTorsion.example_init 0 = inl RationalTorsion.could_not_compute.
Proof.
  destruct (init_first_success nat Z Z RationalTorsion.example_elltors
              RationalTorsion.example_double_prec (fun P : Z => P) inject_Z 1 0)
    as [Hok _].
  destruct (init_first_success nat Z Z RationalTorsion.example_elltors
              RationalTorsion.example_double_prec (fun P : Z => P) inject_Z 0 0)
    as [_ Hfail].
  split.
  - eexists. destruct (Hok _ eq_refl) as (j & G & Hj & Hd & Hc & _).
    exists j, G. split; [reflexivity|]. by split; [|split].
  - apply Hfail. exists 0. split; [reflexivity|].
    intros i E_i Hi Hd. destruct i as [|[|[|i]]]; [| | |lia];
      evaluate_in Hd; injection Hd as <-; reflexivity.
Defined.

Lemma gens_sorted_by_height_example :
  exists T G,
    RationalTorsion.example_init 1 = inr T /\
    RationalTorsion.__torsion_gens T = [1; 2; 3]%Z /\
    Permutation (RationalTorsion.__torsion_gens T)
                (map (fun P : Z => P) (RationalTorsion.G_gens _ G)) /\
    (forall i j P P', (0 <= i <= j)%Z ->
       RationalTorsion.gen T i = Some P -> RationalTorsion.gen T j = Some P' ->
       (inject_Z P <= inject_Z P')%Q) /\
    RationalTorsion.gen T (-1) = Some 3%Z.
Proof.
  eexists. eexists. split; [evaluate; reflexivity|]. split; [reflexivity|].
  destruct (gens_sorted_by_height nat Z Z RationalTorsion.example_elltors
              RationalTorsion.example_double_prec (fun P : Z => P) inject_Z 1 0
              _ _ eq_refl eq_refl) as (Hperm & Hsorted & _ & _).
  split; [exact Hperm|]. split; [exact Hsorted|]. reflexivity.
Defined.
